(** * NaviHive: reorder sessions, order commit and import validation

    A shallow embedding of the ordering and import logic of the dashboard:
    the [App] component (sort-mode state, group drag handler, order commit
    handlers, export and import handlers) and the [GroupCard] component
    (local site buffer, site drag handler, sort button). React state is a
    record threaded through the handlers; calls to the storage client are
    answered by an environment record and logged in a trace. *)

From Stdlib Require Import ZArith DecimalString.
From Stdlib Require Import DecimalZ DecimalPos.
From stdpp Require Import base list gmap strings.

Set Warnings "-register-all".
Open Scope string_scope.
Open Scope nat_scope.
Open Scope list_scope.

(** ** Array helpers *)

Section Arrays.
Context {A : Type}.

(** [Array.prototype.findIndex]: the first index whose element satisfies
    [p]; JavaScript's [-1] is [None]. *)
Fixpoint findIndex (p : A → bool) (l : list A) : option nat :=
  match l with
  | [] => None
  | x :: l' => if p x then Some 0 else S <$> findIndex p l'
  end.

(** [splice(to, 0, x)] on an array from which nothing is removed: [x] is
    inserted before position [to]; a position past the end appends. *)
Definition spliceInsert (to : nat) (x : A) (l : list A) : list A :=
  take to l ++ x :: drop to l.

(** Modelled from the spec: [arrayMove] is imported from the drag-and-drop
    package, so its body is not among the sources.  Section 4.2 describes
    it as removing the element at [from] and reinserting it at [to],
    shifting the elements in between; the package does this on a copy with
    two [splice] calls.  The handlers only call it with indices that
    [findIndex] found, hence in range; for an index past the end this
    model returns the array as it is. *)
Definition arrayMove (array : list A) (from to : nat) : list A :=
  match array !! from with
  | Some x => spliceInsert to x (delete from array)
  | None => array
  end.
End Arrays.

(** ** Data model *)

(** Modelled from the spec: the [Site] interface is declared in the API
    module, which is not among the sources; the fields are those of
    section 3 ([id] is optional before storage assigns it). *)
Module Site.
Record t := mk {
  id : option Z;
  group_id : Z;
  name : string;
  url : string;
  icon : option string;
  description : option string;
  notes : option string;
  order_num : Z
}.
End Site.

(** Modelled from the spec: the [Group] interface of the API module
    (section 3), with the optional [id]. *)
Module Group.
Record t := mk {
  id : option Z;
  name : string;
  order_num : Z
}.
End Group.

(** Modelled from the spec: [GroupWithSites] of the types module, a group
    whose [id] is known, carrying its sites. *)
Module GroupWithSites.
Record t := mk {
  id : Z;
  name : string;
  order_num : Z;
  sites : list Site.t
}.
End GroupWithSites.

(** [enum SortMode]. *)
Module SortMode.
Inductive t := None | GroupSort | SiteSort.

Definition eqb (x y : t) : bool :=
  match x, y with
  | None, None | GroupSort, GroupSort | SiteSort, SiteSort => true
  | _, _ => false
  end.
End SortMode.

(** One entry of a batched order update: [{ id, order_num }].  The [id] of
    a site is optional in its type and is passed through as it is. *)
Module OrderItem.
Record t := mk {
  id : option Z;
  order_num : Z
}.
End OrderItem.

(** [Number.prototype.toString] on an integer id. *)
Definition toString (z : Z) : string := NilZero.string_of_int (Z.to_int z).

(** The event of a finished drag: the identifier of the dragged item and,
    when it was dropped on an item, that item's identifier. *)
Module DragEndEvent.
Record t := mk {
  active : string;
  over : option string
}.
End DragEndEvent.

(** ** JSON values

    The value [JSON.parse] returns.  Numbers are integers here; an object is
    the list of its own properties, read by first match. *)
Inductive json :=
| JNull
| JBool (b : bool)
| JNumber (z : Z)
| JString (s : string)
| JArray (items : list json)
| JObject (fields : list (string * json)).

(** A property read [v.key] on a value other than [null]: [None] is
    [undefined].  Only objects have own properties of these names. *)
Fixpoint lookupField (key : string) (fields : list (string * json)) : option json :=
  match fields with
  | [] => None
  | (k, v) :: rest => if String.eqb k key then Some v else lookupField key rest
  end.

Definition getProperty (v : json) (key : string) : option json :=
  match v with
  | JObject fields => lookupField key fields
  | _ => None
  end.

(** [!v] is false exactly on the truthy values. *)
Definition truthy (v : option json) : bool :=
  match v with
  | None => false
  | Some JNull => false
  | Some (JBool b) => b
  | Some (JNumber z) => negb (z =? 0)%Z
  | Some (JString s) => negb (String.eqb s "")
  | Some (JArray _) => true
  | Some (JObject _) => true
  end.

(** [Array.isArray(v)]. *)
Definition isArray (v : option json) : bool :=
  match v with
  | Some (JArray _) => true
  | _ => false
  end.

(** [typeof v === 'object']: objects, arrays and [null]. *)
Definition typeofObject (v : option json) : bool :=
  match v with
  | Some JNull | Some (JArray _) | Some (JObject _) => true
  | _ => false
  end.

(** A key-value mapping in the sense of the import format: a plain object. *)
Definition isMapping (v : option json) : bool :=
  match v with
  | Some (JObject _) => true
  | _ => false
  end.

(** ** The state of the [App] component

    One field per [useState] cell that the modelled handlers read or write;
    [groups] is the Entity Store the page renders from. *)
Module App.
Record t := mk {
  groups : list GroupWithSites.t;
  loading : bool;
  error : option string;
  sortMode : SortMode.t;
  currentSortingGroupId : option Z;
  isAuthRequired : bool;
  isAuthenticated : bool;
  configs : gmap string string;
  tempConfigs : gmap string string;
  openImport : bool;
  importError : option string;
  importLoading : bool;
  snackbarOpen : bool;
  snackbarMessage : string;
  importResultOpen : bool;
  importResultMessage : string
}.

Definition setGroups (v : list GroupWithSites.t) (a : t) : t :=
  mk v (loading a) (error a) (sortMode a) (currentSortingGroupId a)
    (isAuthRequired a) (isAuthenticated a) (configs a) (tempConfigs a)
    (openImport a) (importError a) (importLoading a) (snackbarOpen a)
    (snackbarMessage a) (importResultOpen a) (importResultMessage a).
Definition setLoading (v : bool) (a : t) : t :=
  mk (groups a) v (error a) (sortMode a) (currentSortingGroupId a)
    (isAuthRequired a) (isAuthenticated a) (configs a) (tempConfigs a)
    (openImport a) (importError a) (importLoading a) (snackbarOpen a)
    (snackbarMessage a) (importResultOpen a) (importResultMessage a).
Definition setError (v : option string) (a : t) : t :=
  mk (groups a) (loading a) v (sortMode a) (currentSortingGroupId a)
    (isAuthRequired a) (isAuthenticated a) (configs a) (tempConfigs a)
    (openImport a) (importError a) (importLoading a) (snackbarOpen a)
    (snackbarMessage a) (importResultOpen a) (importResultMessage a).
Definition setSortMode (v : SortMode.t) (a : t) : t :=
  mk (groups a) (loading a) (error a) v (currentSortingGroupId a)
    (isAuthRequired a) (isAuthenticated a) (configs a) (tempConfigs a)
    (openImport a) (importError a) (importLoading a) (snackbarOpen a)
    (snackbarMessage a) (importResultOpen a) (importResultMessage a).
Definition setCurrentSortingGroupId (v : option Z) (a : t) : t :=
  mk (groups a) (loading a) (error a) (sortMode a) v (isAuthRequired a)
    (isAuthenticated a) (configs a) (tempConfigs a) (openImport a)
    (importError a) (importLoading a) (snackbarOpen a) (snackbarMessage a)
    (importResultOpen a) (importResultMessage a).
Definition setIsAuthRequired (v : bool) (a : t) : t :=
  mk (groups a) (loading a) (error a) (sortMode a)
    (currentSortingGroupId a) v (isAuthenticated a) (configs a)
    (tempConfigs a) (openImport a) (importError a) (importLoading a)
    (snackbarOpen a) (snackbarMessage a) (importResultOpen a)
    (importResultMessage a).
Definition setIsAuthenticated (v : bool) (a : t) : t :=
  mk (groups a) (loading a) (error a) (sortMode a)
    (currentSortingGroupId a) (isAuthRequired a) v (configs a)
    (tempConfigs a) (openImport a) (importError a) (importLoading a)
    (snackbarOpen a) (snackbarMessage a) (importResultOpen a)
    (importResultMessage a).
Definition setConfigs (v : gmap string string) (a : t) : t :=
  mk (groups a) (loading a) (error a) (sortMode a)
    (currentSortingGroupId a) (isAuthRequired a) (isAuthenticated a) v
    (tempConfigs a) (openImport a) (importError a) (importLoading a)
    (snackbarOpen a) (snackbarMessage a) (importResultOpen a)
    (importResultMessage a).
Definition setTempConfigs (v : gmap string string) (a : t) : t :=
  mk (groups a) (loading a) (error a) (sortMode a)
    (currentSortingGroupId a) (isAuthRequired a) (isAuthenticated a)
    (configs a) v (openImport a) (importError a) (importLoading a)
    (snackbarOpen a) (snackbarMessage a) (importResultOpen a)
    (importResultMessage a).
Definition setOpenImport (v : bool) (a : t) : t :=
  mk (groups a) (loading a) (error a) (sortMode a)
    (currentSortingGroupId a) (isAuthRequired a) (isAuthenticated a)
    (configs a) (tempConfigs a) v (importError a) (importLoading a)
    (snackbarOpen a) (snackbarMessage a) (importResultOpen a)
    (importResultMessage a).
Definition setImportError (v : option string) (a : t) : t :=
  mk (groups a) (loading a) (error a) (sortMode a)
    (currentSortingGroupId a) (isAuthRequired a) (isAuthenticated a)
    (configs a) (tempConfigs a) (openImport a) v (importLoading a)
    (snackbarOpen a) (snackbarMessage a) (importResultOpen a)
    (importResultMessage a).
Definition setImportLoading (v : bool) (a : t) : t :=
  mk (groups a) (loading a) (error a) (sortMode a)
    (currentSortingGroupId a) (isAuthRequired a) (isAuthenticated a)
    (configs a) (tempConfigs a) (openImport a) (importError a) v
    (snackbarOpen a) (snackbarMessage a) (importResultOpen a)
    (importResultMessage a).
Definition setSnackbarOpen (v : bool) (a : t) : t :=
  mk (groups a) (loading a) (error a) (sortMode a)
    (currentSortingGroupId a) (isAuthRequired a) (isAuthenticated a)
    (configs a) (tempConfigs a) (openImport a) (importError a)
    (importLoading a) v (snackbarMessage a) (importResultOpen a)
    (importResultMessage a).
Definition setSnackbarMessage (v : string) (a : t) : t :=
  mk (groups a) (loading a) (error a) (sortMode a)
    (currentSortingGroupId a) (isAuthRequired a) (isAuthenticated a)
    (configs a) (tempConfigs a) (openImport a) (importError a)
    (importLoading a) (snackbarOpen a) v (importResultOpen a)
    (importResultMessage a).
Definition setImportResultOpen (v : bool) (a : t) : t :=
  mk (groups a) (loading a) (error a) (sortMode a)
    (currentSortingGroupId a) (isAuthRequired a) (isAuthenticated a)
    (configs a) (tempConfigs a) (openImport a) (importError a)
    (importLoading a) (snackbarOpen a) (snackbarMessage a) v
    (importResultMessage a).
Definition setImportResultMessage (v : string) (a : t) : t :=
  mk (groups a) (loading a) (error a) (sortMode a)
    (currentSortingGroupId a) (isAuthRequired a) (isAuthenticated a)
    (configs a) (tempConfigs a) (openImport a) (importError a)
    (importLoading a) (snackbarOpen a) (snackbarMessage a)
    (importResultOpen a) v.
End App.

(** [DEFAULT_CONFIGS]. *)
Definition DEFAULT_CONFIGS : gmap string string :=
  list_to_map
    [ ("site.title", "導航站");
      ("site.name", "導航站");
      ("site.customCss", "");
      ("site.backgroundImage", "");
      ("site.backgroundOpacity", "0.15");
      ("site.iconApi",
       "https://www.faviconextractor.com/favicon/{domain}?larger=true") ].

(** ** The storage client as an environment *)

(** The settlement of an awaited promise; a rejection carries the message
    of its [Error]. *)
Inductive response (T : Type) :=
| Resolved (value : T)
| Rejected (message : string).
Arguments Resolved {T} value.
Arguments Rejected {T} message.

(** The statistics record of an import (section 4.4). *)
Module GroupStats.
Record t := mk { total : nat; created : nat; merged : nat }.
End GroupStats.

Module SiteStats.
Record t := mk { total : nat; created : nat; updated : nat; skipped : nat }.
End SiteStats.

Module ImportStats.
Record t := mk { groups : GroupStats.t; sites : SiteStats.t }.
End ImportStats.

(** What [importData] resolves to: [{ success, error?, stats? }]. *)
Module ImportResult.
Record t := mk {
  success : bool;
  error : option string;
  stats : option ImportStats.t
}.
End ImportResult.

(** Modelled from the spec: the client class is not among the sources.  The
    fields are the calls the handlers make, typed as the storage contracts of
    section 6; each is the answer storage gives when a handler makes that
    call. *)
Module Api.
Record t := mk {
  getGroups : response (list Group.t);
  getSites : Z → response (list Site.t);
  updateGroupOrder : list OrderItem.t → response bool;
  updateSiteOrder : list OrderItem.t → response bool;
  importData : json → response ImportResult.t;
  getConfigs : response (gmap string string)
}.
End Api.

(** The requests a handler sent, oldest first. *)
Inductive ApiCall :=
| CallGetGroups
| CallGetSites (groupId : Z)
| CallUpdateGroupOrder (groupOrders : list OrderItem.t)
| CallUpdateSiteOrder (siteOrders : list OrderItem.t)
| CallImportData (importData : json)
| CallGetConfigs.

(** ** Handlers as state transformers

    A handler runs on the component state, may throw an [Error] carrying a
    message, and logs its requests. *)
Inductive completion (X : Type) :=
| Normal (x : X)
| Throw (message : string).
Arguments Normal {X} x.
Arguments Throw {X} message.

Definition M (X : Type) : Type := App.t → completion X * App.t * list ApiCall.

Definition ret {X} (x : X) : M X := λ a, (Normal x, a, []).

Definition bind {X Y} (m : M X) (f : X → M Y) : M Y :=
  λ a,
    match m a with
    | (Normal x, a1, t1) => let '(r, a2, t2) := f x a1 in (r, a2, t1 ++ t2)
    | (Throw e, a1, t1) => (Throw e, a1, t1)
    end.

Definition throw {X} (message : string) : M X := λ a, (Throw message, a, []).

(** A [setState] call. *)
Definition set (f : App.t → App.t) : M unit := λ a, (Normal tt, f a, []).

(** [await api.call(...)]: the request is logged, a rejection is thrown. *)
Definition await {X} (c : ApiCall) (r : response X) : M X :=
  λ a,
    match r with
    | Resolved v => (Normal v, a, [c])
    | Rejected e => (Throw e, a, [c])
    end.

(** [try { m } catch (error) { h error.message }]. *)
Definition tryCatch {X} (m : M X) (h : string → M X) : M X :=
  λ a,
    match m a with
    | (Normal x, a1, t1) => (Normal x, a1, t1)
    | (Throw e, a1, t1) => let '(r, a2, t2) := h e a1 in (r, a2, t1 ++ t2)
    end.

(** [try { m } finally { f }]. *)
Definition tryFinally {X} (m : M X) (f : M unit) : M X :=
  λ a,
    match m a with
    | (r, a1, t1) =>
        match f a1 with
        | (Normal _, a2, t2) => (r, a2, t1 ++ t2)
        | (Throw e, a2, t2) => (Throw e, a2, t1 ++ t2)
        end
    end.

#[global] Instance M_ret : MRet M := @ret.
#[global] Instance M_bind : MBind M := λ X Y f m, bind m f.

Definition stateOf {X} (r : completion X * App.t * list ApiCall) : App.t :=
  r.1.2.

Definition traceOf {X} (r : completion X * App.t * list ApiCall) : list ApiCall :=
  r.2.

Definition completionOf {X} (r : completion X * App.t * list ApiCall) : completion X :=
  r.1.1.

(** [String.prototype.includes]. *)
Fixpoint includes (needle s : string) : bool :=
  String.prefix needle s ||
  match s with
  | EmptyString => false
  | String _ s' => includes needle s'
  end.

(** [Promise.all] over the per-group requests: every request is sent; the
    results are gathered in order, and a rejection rejects the whole. *)
Fixpoint promiseAll {X} (ms : list (M X)) : M (list X) :=
  match ms with
  | [] => ret []
  | m :: rest =>
      λ a,
        let '(r, a1, t1) := m a in
        let '(rs, a2, t2) := promiseAll rest a1 in
        (match r, rs with
         | Normal x, Normal xs => Normal (x :: xs)
         | Throw e, _ => Throw e
         | Normal _, Throw e => Throw e
         end, a2, t1 ++ t2)
  end.

(** Reading the state the handler closed over. *)
Definition get : M App.t := λ a, (Normal a, a, []).

(** ** Handlers of [App] *)

Definition handleError (errorMessage : string) : M unit :=
  set (App.setSnackbarMessage errorMessage);;
  set (App.setSnackbarOpen true).

(** The payload of a group order commit: position becomes [order_num]. *)
Definition groupOrdersOf (groups : list GroupWithSites.t) : list OrderItem.t :=
  imap (λ index group,
          OrderItem.mk (Some (GroupWithSites.id group)) (Z.of_nat index))
       groups.

(** The payload of a site order commit. *)
Definition siteOrdersOf (sites : list Site.t) : list OrderItem.t :=
  imap (λ index site, OrderItem.mk (Site.id site) (Z.of_nat index)) sites.

Section AppHandlers.
Variable api : Api.t.

Definition fetchData : M unit :=
  tryFinally
    (tryCatch
       (set (App.setLoading true);;
        set (App.setError None);;
        groupsData ← await CallGetGroups (Api.getGroups api);
        groupsWithSites ←
          promiseAll
            (omap (λ group,
                     match Group.id group with
                     | Some id =>
                         Some (sites ← await (CallGetSites id) (Api.getSites api id);
                               mret (GroupWithSites.mk id (Group.name group)
                                       (Group.order_num group) sites))
                     | None => None
                     end)
                  groupsData);
        set (App.setGroups groupsWithSites))
       (λ message,
          handleError ("載入數據失敗: " +:+ message);;
          if includes "認證" message
          then set (App.setIsAuthRequired true);;
               set (App.setIsAuthenticated false)
          else mret tt))
    (set (App.setLoading false)).

Definition fetchConfigs : M unit :=
  tryCatch
    (configsData ← await CallGetConfigs (Api.getConfigs api);
     set (App.setConfigs (configsData ∪ DEFAULT_CONFIGS));;
     set (App.setTempConfigs (configsData ∪ DEFAULT_CONFIGS)))
    (λ _, mret tt).

Definition handleSaveGroupOrder : M unit :=
  a ← get;
  let groups := App.groups a in
  tryCatch
    (let groupOrders := groupOrdersOf groups in
     result ← await (CallUpdateGroupOrder groupOrders)
                    (Api.updateGroupOrder api groupOrders);
     (if result : bool then fetchData else throw "分組排序更新失敗");;
     set (App.setSortMode SortMode.None);;
     set (App.setCurrentSortingGroupId None))
    (λ message, handleError ("更新分組排序失敗: " +:+ message)).

Definition handleSaveSiteOrder (groupId : Z) (sites : list Site.t) : M unit :=
  tryCatch
    (let siteOrders := siteOrdersOf sites in
     result ← await (CallUpdateSiteOrder siteOrders)
                    (Api.updateSiteOrder api siteOrders);
     (if result : bool then fetchData else throw "站點排序更新失敗");;
     set (App.setSortMode SortMode.None);;
     set (App.setCurrentSortingGroupId None))
    (λ message, handleError ("更新站點排序失敗: " +:+ message)).
End AppHandlers.

Definition startGroupSort (a : App.t) : App.t :=
  App.setCurrentSortingGroupId None (App.setSortMode SortMode.GroupSort a).

Definition startSiteSort (groupId : Z) (a : App.t) : App.t :=
  App.setCurrentSortingGroupId (Some groupId)
    (App.setSortMode SortMode.SiteSort a).

Definition cancelSort (a : App.t) : App.t :=
  App.setCurrentSortingGroupId None (App.setSortMode SortMode.None a).

Definition handleDragEnd (event : DragEndEvent.t) (a : App.t) : App.t :=
  let groups := App.groups a in
  let active := DragEndEvent.active event in
  match DragEndEvent.over event with
  | None => a
  | Some over =>
      if negb (String.eqb active over) then
        let oldIndex :=
          findIndex (λ group, String.eqb (toString (GroupWithSites.id group)) active)
                    groups in
        let newIndex :=
          findIndex (λ group, String.eqb (toString (GroupWithSites.id group)) over)
                    groups in
        match oldIndex, newIndex with
        | Some oldIndex, Some newIndex =>
            App.setGroups (arrayMove groups oldIndex newIndex) a
        | _, _ => a
        end
      else a
  end.

(** A sort session's gestures, applied in order. *)
Definition dragAll (events : list DragEndEvent.t) (a : App.t) : App.t :=
  foldl (λ a event, handleDragEnd event a) a events.

(** ** The [GroupCard] component *)

(** The props of a card that the modelled handlers read. *)
Module GroupCardProps.
Record t := mk {
  group : GroupWithSites.t;
  sortMode : SortMode.t;
  currentSortingGroupId : option Z
}.
End GroupCardProps.

(** The local state of a card; [sites] is the buffer its drags rearrange. *)
Module GroupCard.
Record t := mk {
  sites : list Site.t;
  editDialogOpen : bool;
  snackbarOpen : bool;
  snackbarMessage : string;
  isCollapsed : bool
}.

Definition setSites (v : list Site.t) (c : t) : t :=
  mk v (editDialogOpen c) (snackbarOpen c) (snackbarMessage c) (isCollapsed c).
Definition setSnackbarOpen (v : bool) (c : t) : t :=
  mk (sites c) (editDialogOpen c) v (snackbarMessage c) (isCollapsed c).
Definition setSnackbarMessage (v : string) (c : t) : t :=
  mk (sites c) (editDialogOpen c) (snackbarOpen c) v (isCollapsed c).
Definition setIsCollapsed (v : bool) (c : t) : t :=
  mk (sites c) (editDialogOpen c) (snackbarOpen c) (snackbarMessage c) v.

(** The initial state at mount: the buffer is seeded with [group.sites];
    [savedState] is the collapse flag found in local storage. *)
Definition mount (group : GroupWithSites.t) (savedState : bool) : t :=
  mk (GroupWithSites.sites group) false false "" savedState.
End GroupCard.

(** The sortable identifier of a site, [`site-${site.id}`]. *)
Definition siteItemId (site : Site.t) : string :=
  "site-" +:+ match Site.id site with
              | Some id => toString id
              | None => "undefined"
              end.

Definition handleSiteDragEnd (event : DragEndEvent.t) (c : GroupCard.t) : GroupCard.t :=
  let sites := GroupCard.sites c in
  let active := DragEndEvent.active event in
  match DragEndEvent.over event with
  | None => c
  | Some over =>
      if negb (String.eqb active over) then
        let oldIndex := findIndex (λ site, String.eqb (siteItemId site) active) sites in
        let newIndex := findIndex (λ site, String.eqb (siteItemId site) over) sites in
        match oldIndex, newIndex with
        | Some oldIndex, Some newIndex =>
            let newSites := arrayMove sites oldIndex newIndex in
            GroupCard.setSites newSites c
        | _, _ => c
        end
      else c
  end.

Definition siteDragAll (events : list DragEndEvent.t) (c : GroupCard.t) : GroupCard.t :=
  foldl (λ c event, handleSiteDragEnd event c) c events.

Definition isCurrentEditingGroup (props : GroupCardProps.t) : bool :=
  SortMode.eqb (GroupCardProps.sortMode props) SortMode.SiteSort &&
  bool_decide (GroupCardProps.currentSortingGroupId props
               = Some (GroupWithSites.id (GroupCardProps.group props))).

(** The list the card draws: the local buffer while this group is being
    sorted, the store's list otherwise. *)
Definition sitesToRender (props : GroupCardProps.t) (c : GroupCard.t) : list Site.t :=
  if isCurrentEditingGroup props then GroupCard.sites c
  else GroupWithSites.sites (GroupCardProps.group props).

(** The card's save button: the callback [onSaveSiteOrder] is invoked with
    the group id and the local buffer. *)
Definition cardHandleSaveSiteOrder (props : GroupCardProps.t) (c : GroupCard.t)
  : Z * list Site.t :=
  (GroupWithSites.id (GroupCardProps.group props), GroupCard.sites c).

(** The card's sort button.  The second component is the call to
    [onStartSiteSort], when one is made. *)
Definition handleSortClick (props : GroupCardProps.t) (c : GroupCard.t)
  : GroupCard.t * option Z :=
  let group := GroupCardProps.group props in
  if (length (GroupWithSites.sites group) <? 2)%nat then
    (GroupCard.setSnackbarOpen true
       (GroupCard.setSnackbarMessage "至少需要2個站點才能進行排序" c),
     None)
  else
    let c1 := if GroupCard.isCollapsed c then GroupCard.setIsCollapsed false c else c in
    (c1, Some (GroupWithSites.id group)).

(** ** What [App] renders *)

(** The props [App] passes to the card of [group]. *)
Definition groupCardProps (a : App.t) (group : GroupWithSites.t) : GroupCardProps.t :=
  GroupCardProps.mk group
    (if SortMode.eqb (App.sortMode a) SortMode.None
     then SortMode.None else SortMode.SiteSort)
    (App.currentSortingGroupId a).

(** The sort button of a card wired to [startSiteSort], as [App] passes it
    in [onStartSiteSort]. *)
Definition clickSort (group : GroupWithSites.t) (ac : App.t * GroupCard.t)
  : App.t * GroupCard.t :=
  let '(a, c) := ac in
  match handleSortClick (groupCardProps a group) c with
  | (c1, Some groupId) => (startSiteSort groupId a, c1)
  | (c1, None) => (a, c1)
  end.

(** The controls of the page header. *)
Inductive AppControl :=
| SaveGroupOrderButton
| CancelEditButton
| AddGroupButton
| MoreOptionsButton
| EditSortItem
| SiteSettingsItem
| ExportDataItem
| ImportDataItem
| LogoutItem.

(** The header: while a sort mode is on it shows save (group sort only) and
    cancel; otherwise the add button and the menu, whose first item starts
    the group sort. *)
Definition appToolbar (a : App.t) : list AppControl :=
  if negb (SortMode.eqb (App.sortMode a) SortMode.None) then
    (if SortMode.eqb (App.sortMode a) SortMode.GroupSort
     then [SaveGroupOrderButton] else [])
    ++ [CancelEditButton]
  else
    [AddGroupButton; MoreOptionsButton; EditSortItem; SiteSettingsItem;
     ExportDataItem; ImportDataItem]
    ++ (if App.isAuthenticated a then [LogoutItem] else []).

(** The body shows the cards unless it is loading, in error, or in group
    sort (where the sortable group items replace the cards). *)
Definition rendersGroupCards (a : App.t) : bool :=
  negb (App.loading a) && negb (bool_decide (is_Some (App.error a))) &&
  negb (SortMode.eqb (App.sortMode a) SortMode.GroupSort).

(** The buttons in a card's header ([App] passes every optional
    callback, so the add and edit buttons are present whenever the sort
    button is). *)
Inductive CardControl :=
| SaveOrderButton
| AddCardButton
| SortButton
| EditGroupButton.

Definition cardToolbar (props : GroupCardProps.t) : list CardControl :=
  if isCurrentEditingGroup props then [SaveOrderButton]
  else if SortMode.eqb (GroupCardProps.sortMode props) SortMode.None
       then [AddCardButton; SortButton; EditGroupButton]
       else [].

#[global] Instance AppControl_eq_dec : EqDecision AppControl.
Proof. solve_decision. Defined.

#[global] Instance CardControl_eq_dec : EqDecision CardControl.
Proof. solve_decision. Defined.

(** A click reaches a handler only through a control that is drawn.  The
    menu item that starts the group sort carries [onClick={startGroupSort}];
    it is part of the header drawn when no sort mode is on. *)
Definition pressEditSort (a : App.t) : App.t :=
  if bool_decide (EditSortItem ∈ appToolbar a) then startGroupSort a else a.

(** The sort button of the card of [group] carries
    [onClick={handleSortClick}]; the card is drawn in the body and the button
    in the card's header. *)
Definition pressSortButton (group : GroupWithSites.t) (ac : App.t * GroupCard.t)
  : App.t * GroupCard.t :=
  if rendersGroupCards ac.1
     && bool_decide (SortButton ∈ cardToolbar (groupCardProps ac.1 group))
  then clickSort group ac else ac.

(** ** Export and import *)

(** An optional string field: absent when [undefined]. *)
Definition optionalField (key : string) (v : option string) : list (string * json) :=
  match v with
  | Some s => [(key, JString s)]
  | None => []
  end.

(** A site as it is written to the file. *)
Definition siteToJson (site : Site.t) : json :=
  JObject
    (match Site.id site with
     | Some id => [("id", JNumber id)]
     | None => []
     end
     ++ [("group_id", JNumber (Site.group_id site));
         ("name", JString (Site.name site));
         ("url", JString (Site.url site))]
     ++ optionalField "icon" (Site.icon site)
     ++ optionalField "description" (Site.description site)
     ++ optionalField "notes" (Site.notes site)
     ++ [("order_num", JNumber (Site.order_num site))]).

(** The entry of a group in the export: [{ id, name, order_num }]. *)
Definition exportGroup (group : GroupWithSites.t) : json :=
  JObject
    [("id", JNumber (GroupWithSites.id group));
     ("name", JString (GroupWithSites.name group));
     ("order_num", JNumber (GroupWithSites.order_num group))].

(** The sites of all groups gathered in one array. *)
Definition allSitesOf (groups : list GroupWithSites.t) : list Site.t :=
  foldl (λ allSites group,
           if (0 <? length (GroupWithSites.sites group))%nat
           then allSites ++ GroupWithSites.sites group
           else allSites)
        [] groups.

Definition configsToJson (configs : gmap string string) : json :=
  JObject (prod_map id JString <$> map_to_list configs).

(** The object [handleExportData] serialises; [exportDate] is the clock's
    ISO string. *)
Definition exportData (exportDate : string) (a : App.t) : json :=
  JObject
    [("groups", JArray (exportGroup <$> App.groups a));
     ("sites", JArray (siteToJson <$> allSitesOf (App.groups a)));
     ("configs", configsToJson (App.configs a));
     ("version", JString "1.0");
     ("exportDate", JString exportDate)].

(** The handler returns the document it hands to the browser to download.
    Building the document cannot fail, so the handler's catch clause, which
    only reports, has nothing to catch here. *)
Definition handleExportData (exportDate : string) : M json :=
  tryFinally
    (set (App.setLoading true);;
     a ← get;
     mret (exportData exportDate a))
    (set (App.setLoading false)).

(** What the file reader delivers for the chosen file. *)
Inductive FileRead :=
| FileLoaded (result : option string)
| FileFailed.

(** A property read on the parsed value; on [null] it throws a
    [TypeError]. *)
Definition readProperty (v : json) (key : string) : M (option json) :=
  match v with
  | JNull =>
      throw ("Cannot read properties of null (reading '" +:+ key +:+ "')")
  | _ => mret (getProperty v key)
  end.

Definition newline : string := String (Ascii.ascii_of_nat 10) EmptyString.

Definition natToString (n : nat) : string := toString (Z.of_nat n).

Definition importSummary (stats : ImportStats.t) : string :=
  let g := ImportStats.groups stats in
  let s := ImportStats.sites stats in
  "匯入成功！" +:+ newline +:+
  "分組：發現" +:+ natToString (GroupStats.total g) +:+
  "個，新建" +:+ natToString (GroupStats.created g) +:+
  "個，合併" +:+ natToString (GroupStats.merged g) +:+ "個" +:+ newline +:+
  "卡片：發現" +:+ natToString (SiteStats.total s) +:+
  "個，新建" +:+ natToString (SiteStats.created s) +:+
  "個，更新" +:+ natToString (SiteStats.updated s) +:+
  "個，跳過" +:+ natToString (SiteStats.skipped s) +:+ "個".

Section ImportHandlers.
Variable api : Api.t.
(** [JSON.parse]: the parsed value, or the message of its [SyntaxError]. *)
Variable JSON_parse : string → completion json.

(** The format checks of the import, in the order the handler makes them. *)
Definition validateImportData (importData : json) : M unit :=
  groups ← readProperty importData "groups";
  (if negb (truthy groups) || negb (isArray groups)
   then throw "匯入檔案格式錯誤：缺少分組數據" else mret tt);;
  sites ← readProperty importData "sites";
  (if negb (truthy sites) || negb (isArray sites)
   then throw "匯入檔案格式錯誤：缺少站點數據" else mret tt);;
  configs ← readProperty importData "configs";
  (if negb (truthy configs) || negb (typeofObject configs)
   then throw "匯入檔案格式錯誤：缺少配置數據" else mret tt).

(** The reader's [onload] callback. *)
Definition importOnLoad (result : option string) : M unit :=
  tryFinally
    (tryCatch
       (text ← match result with
               | Some text => if String.eqb text "" then throw "讀取檔案失敗"
                              else mret text
               | None => throw "讀取檔案失敗"
               end;
        importData ← (λ a, (JSON_parse text, a, []));
        validateImportData importData;;
        result ← await (CallImportData importData) (Api.importData api importData);
        (if negb (ImportResult.success result)
         then throw (match ImportResult.error result with
                     | Some e => if String.eqb e "" then "匯入失敗" else e
                     | None => "匯入失敗"
                     end)
         else mret tt);;
        match ImportResult.stats result with
        | Some stats =>
            set (App.setImportResultMessage (importSummary stats));;
            set (App.setImportResultOpen true)
        | None => mret tt
        end;;
        fetchData api;;
        fetchConfigs api;;
        set (App.setOpenImport false))
       (λ message, handleError ("解析匯入數據失敗: " +:+ message)))
    (set (App.setImportLoading false)).

(** [handleImportData]: the synchronous part, then the reader's callback
    ([onload] or [onerror]) once the file was read. *)
Definition handleImportData (importFile : option FileRead) : M unit :=
  match importFile with
  | None => handleError "請選擇要匯入的檔案"
  | Some file =>
      tryFinally
        (tryCatch
           (set (App.setImportLoading true);;
            set (App.setImportError None))
           (λ message, handleError ("匯入數據失敗: " +:+ message)))
        (set (App.setImportLoading false));;
      match file with
      | FileLoaded result => importOnLoad result
      | FileFailed =>
          handleError "讀取檔案失敗";;
          set (App.setImportLoading false)
      end
  end.
End ImportHandlers.

(** ** Import reconciliation

    The reconciler runs behind [importData], in the storage layer, which is
    not among the sources; it is modelled here after section 4.4. *)

(** Modelled from the spec: a stored group, whose [id] storage assigned
    (section 3). *)
Module StoredGroup.
Record t := mk {
  id : Z;
  name : string;
  order_num : Z
}.
End StoredGroup.

(** Modelled from the spec: a stored site (section 3). *)
Module StoredSite.
Record t := mk {
  id : Z;
  group_id : Z;
  name : string;
  url : string;
  icon : option string;
  description : option string;
  notes : option string;
  order_num : Z
}.
End StoredSite.

(** Modelled from the spec: the persisted state an import reconciles
    against: groups, sites and the configuration mapping. *)
Module Store.
Record t := mk {
  groups : list StoredGroup.t;
  sites : list StoredSite.t;
  configs : gmap string string
}.
End Store.

(** Modelled from the spec: the dataset snapshot of section 4.4,
    [{ groups, sites, configs }]. *)
Module Snapshot.
Record t := mk {
  groups : list Group.t;
  sites : list Site.t;
  configs : gmap string string
}.
End Snapshot.

(** Modelled from the spec: storage assigns the identity of a created
    entity; here the next integer above the ones in use. *)
Definition freshId (ids : list Z) : Z := foldr Z.max 0%Z ids + 1.

(** Modelled from the spec: the running state of the group pass: the stored
    groups, the resolution of incoming group ids, and the counters. *)
Module GroupPass.
Record t := mk {
  groups : list StoredGroup.t;
  idMap : list (Z * Z);
  created : nat;
  merged : nat
}.
End GroupPass.

(** Modelled from the spec: remember which stored group an incoming group
    id resolved to. *)
Definition recordId (incoming : option Z) (resolved : Z) (idMap : list (Z * Z))
  : list (Z * Z) :=
  match incoming with
  | Some i => idMap ++ [(i, resolved)]
  | None => idMap
  end.

(** Modelled from the spec: group matching by exact name, first match in
    storage order; a match is merged, otherwise the group is created. *)
Definition reconcileGroup (st : GroupPass.t) (incoming : Group.t) : GroupPass.t :=
  match List.find (λ g, String.eqb (StoredGroup.name g) (Group.name incoming))
                  (GroupPass.groups st) with
  | Some existing =>
      GroupPass.mk (GroupPass.groups st)
        (recordId (Group.id incoming) (StoredGroup.id existing) (GroupPass.idMap st))
        (GroupPass.created st) (S (GroupPass.merged st))
  | None =>
      let id := freshId (StoredGroup.id <$> GroupPass.groups st) in
      GroupPass.mk
        (GroupPass.groups st
         ++ [StoredGroup.mk id (Group.name incoming) (Group.order_num incoming)])
        (recordId (Group.id incoming) id (GroupPass.idMap st))
        (S (GroupPass.created st)) (GroupPass.merged st)
  end.

(** Modelled from the spec: the group pass over the snapshot, in order. *)
Definition reconcileGroups (groups : list StoredGroup.t) (incoming : list Group.t)
  : GroupPass.t :=
  foldl reconcileGroup (GroupPass.mk groups [] 0 0) incoming.

(** Modelled from the spec: the resolved [group_id] of an incoming site
    after group matching; an id no snapshot group carries is kept. *)
Definition resolveGroupId (idMap : list (Z * Z)) (group_id : Z) : Z :=
  match List.find (λ p, (p.1 =? group_id)%Z) idMap with
  | Some p => p.2
  | None => group_id
  end.

(** Modelled from the spec: the matching key of a site, its [url] within
    its group. *)
Definition siteKey (s : StoredSite.t) : string * Z :=
  (StoredSite.url s, StoredSite.group_id s).

Definition hasKey (k : string * Z) (s : StoredSite.t) : bool :=
  bool_decide (siteKey s = k).

(** Modelled from the spec: what an incoming record and the stored one it
    matched are compared by.  The [id] is left out: it is storage's own
    (section 3) and an incoming record need not carry one; so is the group,
    which the match has resolved. *)
Definition incomingContent (s : Site.t)
  : string * string * option string * option string * option string * Z :=
  (Site.name s, Site.url s, Site.icon s, Site.description s, Site.notes s,
   Site.order_num s).

Definition storedContent (s : StoredSite.t)
  : string * string * option string * option string * option string * Z :=
  (StoredSite.name s, StoredSite.url s, StoredSite.icon s,
   StoredSite.description s, StoredSite.notes s, StoredSite.order_num s).

(** Modelled from the spec: an incoming record identical to the matched
    one is skipped. *)
Definition sameContent (incoming : Site.t) (existing : StoredSite.t) : bool :=
  bool_decide (incomingContent incoming = storedContent existing).

(** Modelled from the spec: an update in place overwrites name, icon,
    description and notes, and keeps the [id]. *)
Definition overwrite (incoming : Site.t) (existing : StoredSite.t) : StoredSite.t :=
  StoredSite.mk (StoredSite.id existing) (StoredSite.group_id existing)
    (Site.name incoming) (StoredSite.url existing) (Site.icon incoming)
    (Site.description incoming) (Site.notes incoming)
    (StoredSite.order_num existing).

(** Apply [f] to the first element satisfying [p]. *)
Fixpoint updateFirst {A} (p : A → bool) (f : A → A) (l : list A) : list A :=
  match l with
  | [] => []
  | x :: l' => if p x then f x :: l' else x :: updateFirst p f l'
  end.

(** Modelled from the spec: the running state of the site pass. *)
Module SitePass.
Record t := mk {
  sites : list StoredSite.t;
  created : nat;
  updated : nat;
  skipped : nat
}.
End SitePass.

(** Modelled from the spec: the key an incoming site is looked up by. *)
Definition incomingKey (idMap : list (Z * Z)) (incoming : Site.t) : string * Z :=
  (Site.url incoming, resolveGroupId idMap (Site.group_id incoming)).

(** Modelled from the spec: site matching by ([url], resolved group), first
    match in storage order: skipped when identical, updated in place when
    not, created when there is no match. *)
Definition reconcileSite (idMap : list (Z * Z)) (st : SitePass.t) (incoming : Site.t)
  : SitePass.t :=
  let key := incomingKey idMap incoming in
  match List.find (hasKey key) (SitePass.sites st) with
  | Some existing =>
      if sameContent incoming existing then
        SitePass.mk (SitePass.sites st) (SitePass.created st)
          (SitePass.updated st) (S (SitePass.skipped st))
      else
        SitePass.mk (updateFirst (hasKey key) (overwrite incoming) (SitePass.sites st))
          (SitePass.created st) (S (SitePass.updated st)) (SitePass.skipped st)
  | None =>
      let id := freshId (StoredSite.id <$> SitePass.sites st) in
      SitePass.mk
        (SitePass.sites st
         ++ [StoredSite.mk id key.2 (Site.name incoming) (Site.url incoming)
               (Site.icon incoming) (Site.description incoming)
               (Site.notes incoming) (Site.order_num incoming)])
        (S (SitePass.created st)) (SitePass.updated st) (SitePass.skipped st)
  end.

(** Modelled from the spec: the site pass over the snapshot, in order. *)
Definition reconcileSites (idMap : list (Z * Z)) (sites : list StoredSite.t)
    (incoming : list Site.t) : SitePass.t :=
  foldl (reconcileSite idMap) (SitePass.mk sites 0 0 0) incoming.

(** Modelled from the spec: [importDataset] of sections 4.4 and 6: the
    group pass, the site pass under the resolved group ids, and the config
    merge in which imported pairs overwrite and other keys stay. *)
Definition importDataset (store : Store.t) (snapshot : Snapshot.t)
  : Store.t * ImportStats.t :=
  let gp := reconcileGroups (Store.groups store) (Snapshot.groups snapshot) in
  let sp := reconcileSites (GroupPass.idMap gp) (Store.sites store)
                           (Snapshot.sites snapshot) in
  (Store.mk (GroupPass.groups gp) (SitePass.sites sp)
     (Snapshot.configs snapshot ∪ Store.configs store),
   ImportStats.mk
     (GroupStats.mk (length (Snapshot.groups snapshot))
        (GroupPass.created gp) (GroupPass.merged gp))
     (SiteStats.mk (length (Snapshot.sites snapshot))
        (SitePass.created sp) (SitePass.updated sp) (SitePass.skipped sp))).







(** * The rest of the page

    The handlers below complete the [App] component: refresh helpers, the
    dialogs for adding groups and sites, the edits and deletions, the
    configuration dialog and the theme switch, and the group edit dialog. *)

(** ** Refresh *)

(** The per-group requests of [fetchData], as it builds them. *)
Definition siteRequests (api : Api.t) (groupsData : list Group.t)
  : list (M GroupWithSites.t) :=
  omap (λ group,
          match Group.id group with
          | Some id =>
              Some (sites ← await (CallGetSites id) (Api.getSites api id);
                    mret (GroupWithSites.mk id (Group.name group)
                            (Group.order_num group) sites))
          | None => None
          end)
       groupsData.

(** A fetched group with the sites storage returned for it; a group without
    [id] is dropped. *)
Definition withSites (sitesOf : Z → list Site.t) (group : Group.t)
  : option GroupWithSites.t :=
  match Group.id group with
  | Some id =>
      Some (GroupWithSites.mk id (Group.name group) (Group.order_num group)
              (sitesOf id))
  | None => None
  end.

(** The part of the catch clause of [fetchData] that reacts to an
    authentication message. *)
Definition authStep (message : string) (a : App.t) : App.t :=
  if includes "認證" message
  then App.setIsAuthenticated false (App.setIsAuthRequired true a)
  else a.

(** The sites storage answers with for a group, none when it rejects. *)
Definition sitesAnswered (api : Api.t) (groupId : Z) : list Site.t :=
  match Api.getSites api groupId with
  | Resolved sites => sites
  | Rejected _ => []
  end.

(** ** Theme *)

(** The initial value of [darkMode]: the saved theme when there is one, the
    system preference otherwise. *)
Definition initialDarkMode (savedTheme : option string) (prefersDark : bool) : bool :=
  match savedTheme with
  | Some theme =>
      if String.eqb theme "" then prefersDark else String.eqb theme "dark"
  | None => prefersDark
  end.

(** [toggleTheme]: the new [darkMode] and the value written to local
    storage under [theme]. *)
Definition toggleTheme (darkMode : bool) : bool * string :=
  (negb darkMode, if negb darkMode then "dark" else "light").

(** ** New-site draft *)

(** Numbers are binary64 floats; the integers among them are modelled in
    [Z].  [roundToDouble z] is the float nearest to the integer [z], a tie
    going to the even significand: what the sum of two integer-valued floats
    is when their exact sum is [z].  Every integer up to [2 ^ 53] in
    magnitude is a float; above, [e] is the exponent of the last bit of the
    53-bit significand [q]. *)
Definition roundToDouble (z : Z) : Z :=
  let m := Z.abs z in
  if (m <=? 2 ^ 53)%Z then z
  else
    let e := (Z.log2 m - 52)%Z in
    let q := Z.shiftr m e in
    let r := (m - Z.shiftl q e)%Z in
    let half := Z.shiftl 1 (e - 1) in
    let q' := if (r <? half)%Z then q
              else if (half <? r)%Z then (q + 1)%Z
              else if Z.even q then q else (q + 1)%Z in
    (Z.sgn z * Z.shiftl q' e)%Z.

(** [Number.isSafeInteger], on the integers. *)
Definition isSafeInteger (z : Z) : bool := (Z.abs z <? 2 ^ 53)%Z.

(** [Math.max(...xs)] on a non-empty list of integers. *)
Definition mathMax (x : Z) (xs : list Z) : Z := foldr Z.max x xs.

(** The [order_num] that [handleOpenAddSite] gives the draft: one more than
    the largest in the group, as a float; 0 when the group is missing or
    empty. *)
Definition maxOrderNum (groups : list GroupWithSites.t) (groupId : Z) : Z :=
  match List.find (λ g, (GroupWithSites.id g =? groupId)%Z) groups with
  | Some group =>
      match Site.order_num <$> GroupWithSites.sites group with
      | x :: xs => roundToDouble (mathMax x xs + 1)
      | [] => 0
      end
  | None => 0
  end.

(** The draft [handleOpenAddSite] puts in the form. *)
Definition emptySiteDraft (groupId order_num : Z) : Site.t :=
  Site.mk None groupId "" "" (Some "") (Some "") (Some "") order_num.

(** ** The page around the core state

    The state of the dialogs, which the handlers of the earlier sections do
    not read. *)
Module Page.
Record t := mk {
  app : App.t;
  openAddGroup : bool;
  newGroup : Group.t;
  openAddSite : bool;
  newSite : Site.t;
  openConfig : bool
}.

Definition setApp (v : App.t) (p : t) : t :=
  mk v (openAddGroup p) (newGroup p) (openAddSite p) (newSite p) (openConfig p).
Definition setOpenAddGroup (v : bool) (p : t) : t :=
  mk (app p) v (newGroup p) (openAddSite p) (newSite p) (openConfig p).
Definition setNewGroup (v : Group.t) (p : t) : t :=
  mk (app p) (openAddGroup p) v (openAddSite p) (newSite p) (openConfig p).
Definition setOpenAddSite (v : bool) (p : t) : t :=
  mk (app p) (openAddGroup p) (newGroup p) v (newSite p) (openConfig p).
Definition setNewSite (v : Site.t) (p : t) : t :=
  mk (app p) (openAddGroup p) (newGroup p) (openAddSite p) v (openConfig p).
Definition setOpenConfig (v : bool) (p : t) : t :=
  mk (app p) (openAddGroup p) (newGroup p) (openAddSite p) (newSite p) v.
End Page.

(** Modelled from the spec: the writing calls of the client (section 6),
    which is not among the sources; each field is the answer storage gives
    to that call. *)
Module ApiWrite.
Record t := mk {
  createGroup : Group.t → response Group.t;
  updateGroup : Z → GroupWithSites.t → response bool;
  deleteGroup : Z → response bool;
  createSite : Site.t → response Site.t;
  updateSite : Z → Site.t → response bool;
  deleteSite : Z → response bool;
  setConfig : string → string → response bool
}.
End ApiWrite.

(** The requests of the page: those of the core handlers and the writes. *)
Inductive Request :=
| Core (call : ApiCall)
| CallCreateGroup (group : Group.t)
| CallUpdateGroup (groupId : Z) (group : GroupWithSites.t)
| CallDeleteGroup (groupId : Z)
| CallCreateSite (site : Site.t)
| CallUpdateSite (siteId : Z) (site : Site.t)
| CallDeleteSite (siteId : Z)
| CallSetConfig (key value : string).

(** Handlers on the page state; the same shape as [M]. *)
Definition P (X : Type) : Type := Page.t → completion X * Page.t * list Request.

Definition retP {X} (x : X) : P X := λ p, (Normal x, p, []).

Definition bindP {X Y} (m : P X) (f : X → P Y) : P Y :=
  λ p,
    match m p with
    | (Normal x, p1, t1) => let '(r, p2, t2) := f x p1 in (r, p2, t1 ++ t2)
    | (Throw e, p1, t1) => (Throw e, p1, t1)
    end.

#[global] Instance P_ret : MRet P := @retP.
#[global] Instance P_bind : MBind P := λ X Y f m, bindP m f.

Definition throwP {X} (message : string) : P X := λ p, (Throw message, p, []).

Definition setP (f : Page.t → Page.t) : P unit := λ p, (Normal tt, f p, []).

Definition getP : P Page.t := λ p, (Normal p, p, []).

Definition awaitP {X} (c : Request) (r : response X) : P X :=
  λ p,
    match r with
    | Resolved v => (Normal v, p, [c])
    | Rejected e => (Throw e, p, [c])
    end.

Definition tryCatchP {X} (m : P X) (h : string → P X) : P X :=
  λ p,
    match m p with
    | (Normal x, p1, t1) => (Normal x, p1, t1)
    | (Throw e, p1, t1) => let '(r, p2, t2) := h e p1 in (r, p2, t1 ++ t2)
    end.

(** A core handler run on the page. *)
Definition liftApp {X} (m : M X) : P X :=
  λ p,
    let '(r, a, t) := m (Page.app p) in
    (r, Page.setApp a p, Core <$> t).

Definition pageOf {X} (r : completion X * Page.t * list Request) : Page.t :=
  r.1.2.

Definition requestsOf {X} (r : completion X * Page.t * list Request) : list Request :=
  r.2.

(** The page after an error toast. *)
Definition toastOn (message : string) (p : Page.t) : Page.t :=
  Page.setApp
    (App.setSnackbarOpen true (App.setSnackbarMessage message (Page.app p))) p.

(** The page after a refresh, and the requests the refresh made. *)
Definition refreshed (api : Api.t) (p : Page.t) : Page.t :=
  Page.setApp (stateOf (fetchData api (Page.app p))) p.

Definition refreshRequests (api : Api.t) (p : Page.t) : list Request :=
  Core <$> traceOf (fetchData api (Page.app p)).

(** The empty group draft, [{ name: '', order_num }]. *)
Definition emptyGroupDraft (order_num : Z) : Group.t := Group.mk None "" order_num.

Definition handleOpenAddGroup (p : Page.t) : Page.t :=
  Page.setOpenAddGroup true
    (Page.setNewGroup
       (emptyGroupDraft (Z.of_nat (length (App.groups (Page.app p))))) p).

Definition handleCloseAddGroup (p : Page.t) : Page.t :=
  Page.setOpenAddGroup false p.

Definition handleOpenAddSite (groupId : Z) (p : Page.t) : Page.t :=
  Page.setOpenAddSite true
    (Page.setNewSite
       (emptySiteDraft groupId (maxOrderNum (App.groups (Page.app p)) groupId)) p).

Definition handleCloseAddSite (p : Page.t) : Page.t :=
  Page.setOpenAddSite false p.

Definition handleOpenConfig (p : Page.t) : Page.t :=
  Page.setOpenConfig true
    (Page.setApp (App.setTempConfigs (App.configs (Page.app p)) (Page.app p)) p).

Definition handleCloseConfig (p : Page.t) : Page.t :=
  Page.setOpenConfig false p.

(** An edit of one configuration field in the dialog. *)
Definition handleConfigInputChange (name value : string) (p : Page.t) : Page.t :=
  Page.setApp
    (App.setTempConfigs (<[name := value]> (App.tempConfigs (Page.app p)))
       (Page.app p)) p.

Section PageHandlers.
Variable api : Api.t.
Variable apiWrite : ApiWrite.t.

Definition handleCreateGroup : P unit :=
  p ← getP;
  let newGroup := Page.newGroup p in
  tryCatchP
    (if String.eqb (Group.name newGroup) "" then
       liftApp (handleError "分組名稱不能為空")
     else
       awaitP (CallCreateGroup newGroup) (ApiWrite.createGroup apiWrite newGroup);;
       liftApp (fetchData api);;
       setP handleCloseAddGroup;;
       setP (Page.setNewGroup (emptyGroupDraft 0)))
    (λ message, liftApp (handleError ("建立分組失敗: " +:+ message))).

Definition handleCreateSite : P unit :=
  p ← getP;
  let newSite := Page.newSite p in
  tryCatchP
    (if String.eqb (Site.name newSite) "" || String.eqb (Site.url newSite) "" then
       liftApp (handleError "站點名稱和URL不能為空")
     else
       awaitP (CallCreateSite newSite) (ApiWrite.createSite apiWrite newSite);;
       liftApp (fetchData api);;
       setP handleCloseAddSite)
    (λ message, liftApp (handleError ("建立站點失敗: " +:+ message))).

(** [if (x.id)]: an [id] that is present and not 0. *)
Definition truthyId (id : option Z) : option Z :=
  match id with
  | Some z => if (z =? 0)%Z then None else Some z
  | None => None
  end.

Definition handleSiteUpdate (updatedSite : Site.t) : P unit :=
  tryCatchP
    (match truthyId (Site.id updatedSite) with
     | Some id =>
         awaitP (CallUpdateSite id updatedSite)
                (ApiWrite.updateSite apiWrite id updatedSite);;
         liftApp (fetchData api)
     | None => mret tt
     end)
    (λ message, liftApp (handleError ("更新站點失敗: " +:+ message))).

Definition handleSiteDelete (siteId : Z) : P unit :=
  tryCatchP
    (awaitP (CallDeleteSite siteId) (ApiWrite.deleteSite apiWrite siteId);;
     liftApp (fetchData api))
    (λ message, liftApp (handleError ("刪除站點失敗: " +:+ message))).

(** The group edit dialog hands over the card's group, sites included. *)
Definition handleGroupUpdate (updatedGroup : GroupWithSites.t) : P unit :=
  tryCatchP
    (if negb (GroupWithSites.id updatedGroup =? 0)%Z then
       awaitP (CallUpdateGroup (GroupWithSites.id updatedGroup) updatedGroup)
              (ApiWrite.updateGroup apiWrite (GroupWithSites.id updatedGroup)
                 updatedGroup);;
       liftApp (fetchData api)
     else mret tt)
    (λ message, liftApp (handleError ("更新分組失敗: " +:+ message))).

Definition handleGroupDelete (groupId : Z) : P unit :=
  tryCatchP
    (awaitP (CallDeleteGroup groupId) (ApiWrite.deleteGroup apiWrite groupId);;
     liftApp (fetchData api))
    (λ message, liftApp (handleError ("刪除分組失敗: " +:+ message))).

(** The loop of [handleSaveConfig] over the entries of [tempConfigs]: a
    pair is sent when [configs] does not hold that value under the key. *)
Fixpoint saveEntries (configs : gmap string string)
    (entries : list (string * string)) : P unit :=
  match entries with
  | [] => mret tt
  | (key, value) :: rest =>
      (if bool_decide (configs !! key = Some value) then mret tt
       else awaitP (CallSetConfig key value)
                   (ApiWrite.setConfig apiWrite key value);;
            mret tt);;
      saveEntries configs rest
  end.

(** [handleSaveConfig]; [entries] is [Object.entries(tempConfigs)], whose
    order is the object's own. *)
Definition handleSaveConfig (entries : list (string * string)) : P unit :=
  p ← getP;
  let configs := App.configs (Page.app p) in
  let tempConfigs := App.tempConfigs (Page.app p) in
  tryCatchP
    (saveEntries configs entries;;
     setP (λ p, Page.setApp (App.setConfigs tempConfigs (Page.app p)) p);;
     setP handleCloseConfig)
    (λ message, liftApp (handleError ("儲存配置失敗: " +:+ message))).
End PageHandlers.

(** The pairs the loop of [handleSaveConfig] has to send: those [configs]
    does not hold. *)
Definition changedEntries (configs : gmap string string)
    (entries : list (string * string)) : list (string * string) :=
  List.filter (λ entry, negb (bool_decide (configs !! entry.1 = Some entry.2)))
              entries.

Definition setConfigCall (entry : string * string) : Request :=
  CallSetConfig entry.1 entry.2.

(** ** The group edit dialog *)

Module EditGroupDialog.
Record t := mk {
  name : string;
  showDeleteConfirm : bool
}.
End EditGroupDialog.

(** What a button of the dialog asks of its parent. *)
Inductive DialogCall :=
| OnSave (group : GroupWithSites.t)
| OnDelete (groupId : Z).

Section EditGroup.
(** [String.prototype.trim]. *)
Variable trim : string → string.

(** The effect that runs when the dialog opens or its group changes. *)
Definition dialogEffect (group : option GroupWithSites.t) (d : EditGroupDialog.t)
  : EditGroupDialog.t :=
  EditGroupDialog.mk
    (match group with
     | Some g => GroupWithSites.name g
     | None => EditGroupDialog.name d
     end)
    false.

Definition dialogHandleSave (group : option GroupWithSites.t) (d : EditGroupDialog.t)
  : option DialogCall :=
  match group with
  | Some g =>
      if String.eqb (trim (EditGroupDialog.name d)) "" then None
      else Some (OnSave (GroupWithSites.mk (GroupWithSites.id g)
                           (trim (EditGroupDialog.name d))
                           (GroupWithSites.order_num g) (GroupWithSites.sites g)))
  | None => None
  end.

Definition dialogHandleDelete (group : option GroupWithSites.t) (d : EditGroupDialog.t)
  : EditGroupDialog.t * option DialogCall :=
  match group with
  | Some g =>
      if negb (EditGroupDialog.showDeleteConfirm d) then
        (EditGroupDialog.mk (EditGroupDialog.name d) true, None)
      else (d, Some (OnDelete (GroupWithSites.id g)))
  | None => (d, None)
  end.
End EditGroup.

(** The card's side of the dialog: the edit button opens it, and a save or
    a delete coming back from it is handed to [App] and closes it. *)
Definition setEditDialogOpen (v : bool) (c : GroupCard.t) : GroupCard.t :=
  GroupCard.mk (GroupCard.sites c) v (GroupCard.snackbarOpen c)
    (GroupCard.snackbarMessage c) (GroupCard.isCollapsed c).

Definition handleEditClick (c : GroupCard.t) : GroupCard.t :=
  setEditDialogOpen true c.

Definition cardHandleUpdateGroup (updatedGroup : GroupWithSites.t) (c : GroupCard.t)
  : GroupCard.t * GroupWithSites.t :=
  (setEditDialogOpen false c, updatedGroup).

Definition cardHandleDeleteGroup (groupId : Z) (c : GroupCard.t) : GroupCard.t * Z :=
  (setEditDialogOpen false c, groupId).

Section DialogWiring.
Variable trim : string → string.
Variable api : Api.t.
Variable apiWrite : ApiWrite.t.

(** The save button of the dialog of [group]'s card, wired through the
    card to [handleGroupUpdate]. *)
Definition clickDialogSave (group : GroupWithSites.t) (d : EditGroupDialog.t)
    (p : Page.t) (c : GroupCard.t)
  : (completion unit * Page.t * list Request) * GroupCard.t :=
  match dialogHandleSave trim (Some group) d with
  | Some (OnSave updatedGroup) =>
      let '(c1, updatedGroup) := cardHandleUpdateGroup updatedGroup c in
      (handleGroupUpdate api apiWrite updatedGroup p, c1)
  | _ => ((Normal tt, p, []), c)
  end.

(** The delete button of the dialog, wired through the card to
    [handleGroupDelete]. *)
Definition clickDialogDelete (group : GroupWithSites.t) (d : EditGroupDialog.t)
    (p : Page.t) (c : GroupCard.t)
  : (completion unit * Page.t * list Request) * GroupCard.t * EditGroupDialog.t :=
  match dialogHandleDelete (Some group) d with
  | (d1, Some (OnDelete groupId)) =>
      let '(c1, groupId) := cardHandleDeleteGroup groupId c in
      (handleGroupDelete api apiWrite groupId p, c1, d1)
  | (d1, _) => ((Normal tt, p, []), c, d1)
  end.
End DialogWiring.

(** * Sample data *)

Definition siteRepo : Site.t :=
  Site.mk (Some 1%Z) 1 "Repo" "https://git.example/repo" None None None 0.

Definition siteWiki : Site.t :=
  Site.mk (Some 2%Z) 1 "Wiki" "https://wiki.example" None None None 1.

Definition siteNews : Site.t :=
  Site.mk (Some 3%Z) 2 "News" "https://news.example" None None None 0.

Definition groupDev : GroupWithSites.t :=
  GroupWithSites.mk 1 "Dev" 0 [siteRepo; siteWiki].

Definition groupDocs : GroupWithSites.t :=
  GroupWithSites.mk 2 "Docs" 1 [siteNews].

(** A page showing the two groups, in the given sort mode. *)
Definition sampleApp (sortMode : SortMode.t) (currentSortingGroupId : option Z) : App.t :=
  App.mk [groupDev; groupDocs] false None sortMode currentSortingGroupId
    false true DEFAULT_CONFIGS DEFAULT_CONFIGS false None false false ""
    false "".

(** A storage that answers every read and accepts every order update. *)
Definition apiHealthy : Api.t :=
  Api.mk
    (Resolved [Group.mk (Some 1%Z) "Dev" 0; Group.mk (Some 2%Z) "Docs" 1])
    (λ groupId, Resolved (if (groupId =? 1)%Z then [siteRepo; siteWiki]
                          else [siteNews]))
    (λ _, Resolved true)
    (λ _, Resolved true)
    (λ _, Resolved (ImportResult.mk true None None))
    (Resolved ∅).

(** A storage that reports failure on every order update. *)
Definition apiOrderRefused : Api.t :=
  Api.mk
    (Resolved [Group.mk (Some 1%Z) "Dev" 0; Group.mk (Some 2%Z) "Docs" 1])
    (λ groupId, Resolved (if (groupId =? 1)%Z then [siteRepo; siteWiki]
                          else [siteNews]))
    (λ _, Resolved false)
    (λ _, Resolved false)
    (λ _, Resolved (ImportResult.mk true None None))
    (Resolved ∅).

(** Dragging the first group onto the second. *)
Definition dragDevOntoDocs : DragEndEvent.t := DragEndEvent.mk "1" (Some "2").

(** Dragging the first site of [groupDev] onto its second. *)
Definition dragRepoOntoWiki : DragEndEvent.t :=
  DragEndEvent.mk "site-1" (Some "site-2").

(** A group with a single site, and its freshly mounted card. *)
Definition sampleCard : GroupCard.t := GroupCard.mount groupDocs false.

(** An import file whose [configs] section is an array. *)
Definition payloadConfigsArray : json :=
  JObject [("groups", JArray []); ("sites", JArray []); ("configs", JArray [])].

(** An import file without a [sites] section. *)
Definition payloadNoSites : json :=
  JObject [("groups", JArray []); ("configs", JObject [])].

(** A parser that reads every text as [v]. *)
Definition parseAs (v : json) : string → completion json := λ _, Normal v.

(** An empty storage. *)
Definition emptyStore : Store.t := Store.mk [] [] ∅.

(** The snapshot of the example in section 8: one group, one site in it,
    one configuration pair. *)
Definition snapshotDev : Snapshot.t :=
  Snapshot.mk [Group.mk None "Dev" 0]
    [Site.mk None 1 "Repo" "https://git.example/repo" None None None 0]
    {["site.title" := "X"]}.




(** A storage that accepts writes but fails every read. *)
Definition apiRefreshDown : Api.t :=
  Api.mk (Rejected "offline") (λ _, Rejected "offline")
    (λ _, Resolved true) (λ _, Resolved true)
    (λ _, Rejected "offline") (Rejected "offline").

(** A storage that lists the groups but fails every site list. *)
Definition apiSitesDown : Api.t :=
  Api.mk
    (Resolved [Group.mk (Some 1%Z) "Dev" 0; Group.mk (Some 2%Z) "Docs" 1])
    (λ _, Rejected "offline")
    (λ _, Resolved true) (λ _, Resolved true)
    (λ _, Rejected "offline") (Rejected "offline").

(** A storage that answers an import without success. *)
Definition apiImportRefused : Api.t :=
  Api.mk (Resolved []) (λ _, Resolved [])
    (λ _, Resolved true) (λ _, Resolved true)
    (λ _, Resolved (ImportResult.mk false (Some "quota exceeded") None))
    (Resolved ∅).

(** A storage that answers an import with statistics. *)
Definition apiImportCounted : Api.t :=
  Api.mk (Resolved []) (λ _, Resolved [])
    (λ _, Resolved true) (λ _, Resolved true)
    (λ _, Resolved (ImportResult.mk true None
                      (Some (ImportStats.mk (GroupStats.mk 1 1 0)
                               (SiteStats.mk 1 1 0 0)))))
    (Resolved ∅).

(** An import file with empty sections. *)
Definition payloadEmpty : json :=
  JObject [("groups", JArray []); ("sites", JArray []); ("configs", JObject [])].

(** A storage that accepts every write. *)
Definition apiWriteOk : ApiWrite.t :=
  ApiWrite.mk (λ group, Resolved group) (λ _ _, Resolved true)
    (λ _, Resolved true) (λ site, Resolved site) (λ _ _, Resolved true)
    (λ _, Resolved true) (λ _ _, Resolved true).

(** The sample page with every dialog closed and empty drafts. *)
Definition samplePage : Page.t :=
  Page.mk (sampleApp SortMode.None None) false (emptyGroupDraft 0) false
    (emptySiteDraft 0 0) false.

(** * Properties *)

Ltac run :=
  unfold mbind, mret, M_bind, M_ret, bind, ret, get, set, await, throw,
    tryCatch, tryFinally, handleError;
  cbn -[fetchData fetchConfigs groupOrdersOf siteOrdersOf].

(** A control that is not among the listed ones. *)
Ltac not_listed :=
  let H := fresh "Hin" in
  intros H;
  repeat (apply elem_of_cons in H as [H|H]; [discriminate|]);
  by apply elem_of_nil in H.

(** ** Moving an element *)

Section ArrayFacts.
Context {A : Type}.
Implicit Types l : list A.

Lemma findIndex_lt (p : A → bool) l i :
  findIndex p l = Some i → i < length l.
Proof.
  revert i. induction l as [|x l IH]; intros i; simpl; [done|].
  destruct (p x).
  - intros [= <-]. lia.
  - destruct (findIndex p l) as [k|]; simpl; [|done].
    intros [= <-]. specialize (IH k eq_refl). lia.
Qed.

Lemma spliceInsert_lookup to x l :
  to ≤ length l → spliceInsert to x l !! to = Some x.
Proof.
  intros Hto. unfold spliceInsert.
  rewrite lookup_app_r; rewrite length_take; [|lia].
  replace (to - to `min` length l) with 0 by lia. done.
Qed.

Lemma delete_spliceInsert to x l :
  to ≤ length l → delete to (spliceInsert to x l) = l.
Proof.
  revert l. unfold spliceInsert.
  induction to as [|to IH]; intros [|y l] Hto; simpl in *; try done; try lia.
  f_equal. apply IH. lia.
Qed.

Lemma spliceInsert_perm to x l : spliceInsert to x l ≡ₚ x :: l.
Proof.
  unfold spliceInsert. rewrite <- Permutation_middle.
  by rewrite take_drop.
Qed.

Lemma spliceInsert_delete i x l :
  l !! i = Some x → spliceInsert i x (delete i l) = l.
Proof.
  revert l. unfold spliceInsert.
  induction i as [|i IH]; intros [|y l] Hi; simpl in *; try done.
  - by inversion Hi.
  - f_equal. by apply IH.
Qed.

(** Whatever the indices, a move only rearranges. *)
Lemma arrayMove_perm l i j : arrayMove l i j ≡ₚ l.
Proof.
  unfold arrayMove. destruct (l !! i) as [x|] eqn:Hx; [|done].
  rewrite spliceInsert_perm. symmetry. by apply delete_Permutation.
Qed.

(** A move between valid positions. *)
Lemma arrayMove_valid l i j :
  i < length l → j < length l →
  arrayMove l i j ≡ₚ l
  ∧ arrayMove l i j !! j = l !! i
  ∧ delete j (arrayMove l i j) = delete i l
  ∧ (i = j → arrayMove l i j = l).
Proof.
  intros Hi Hj.
  destruct (lookup_lt_is_Some_2 l i Hi) as [x Hx].
  assert (Hlen : j ≤ length (delete i l)).
  { rewrite length_delete by eauto. lia. }
  split; [apply arrayMove_perm|].
  unfold arrayMove. rewrite Hx. repeat split.
  - by apply spliceInsert_lookup.
  - by apply delete_spliceInsert.
  - intros <-. by apply spliceInsert_delete.
Qed.
End ArrayFacts.


(** ** The drag handlers only rearrange *)

Lemma handleDragEnd_perm event a :
  App.groups (handleDragEnd event a) ≡ₚ App.groups a.
Proof.
  unfold handleDragEnd.
  destruct (DragEndEvent.over event) as [over|]; [|done].
  destruct (negb _); [|done].
  destruct (findIndex _ _) as [oldIndex|]; [|done].
  destruct (findIndex _ _) as [newIndex|]; [|done].
  apply arrayMove_perm.
Qed.

Lemma handleDragEnd_session event a :
  App.sortMode (handleDragEnd event a) = App.sortMode a
  ∧ App.currentSortingGroupId (handleDragEnd event a)
    = App.currentSortingGroupId a.
Proof.
  unfold handleDragEnd.
  destruct (DragEndEvent.over event) as [over|]; [|done].
  destruct (negb _); [|done].
  destruct (findIndex _ _) as [oldIndex|]; [|done].
  by destruct (findIndex _ _) as [newIndex|].
Qed.

Lemma dragAll_perm events a :
  App.groups (dragAll events a) ≡ₚ App.groups a.
Proof.
  revert a. unfold dragAll.
  induction events as [|event events IH]; intros a; simpl; [done|].
  rewrite IH. apply handleDragEnd_perm.
Qed.

Lemma dragAll_session events a :
  App.sortMode (dragAll events a) = App.sortMode a
  ∧ App.currentSortingGroupId (dragAll events a)
    = App.currentSortingGroupId a.
Proof.
  revert a. unfold dragAll.
  induction events as [|event events IH]; intros a; simpl; [done|].
  destruct (IH (handleDragEnd event a)) as [-> ->].
  apply handleDragEnd_session.
Qed.

Lemma handleSiteDragEnd_perm event c :
  GroupCard.sites (handleSiteDragEnd event c) ≡ₚ GroupCard.sites c.
Proof.
  unfold handleSiteDragEnd.
  destruct (DragEndEvent.over event) as [over|]; [|done].
  destruct (negb _); [|done].
  destruct (findIndex _ _) as [oldIndex|]; [|done].
  destruct (findIndex _ _) as [newIndex|]; [|done].
  apply arrayMove_perm.
Qed.

(** A drag either changes nothing or is one move between two valid
    positions: those of the first items carrying the dragged and the target
    identifier. *)
Lemma handleDragEnd_cases event a :
  handleDragEnd event a = a
  ∨ ∃ i j,
      i < length (App.groups a) ∧ j < length (App.groups a)
      ∧ handleDragEnd event a = App.setGroups (arrayMove (App.groups a) i j) a.
Proof.
  unfold handleDragEnd.
  destruct (DragEndEvent.over event) as [over|]; [|by left].
  destruct (negb _); [|by left]. cbn zeta.
  destruct (findIndex
              (λ group, String.eqb (toString (GroupWithSites.id group))
                                   (DragEndEvent.active event))
              (App.groups a)) as [oldIndex|] eqn:Hold; [|by left].
  destruct (findIndex
              (λ group, String.eqb (toString (GroupWithSites.id group)) over)
              (App.groups a)) as [newIndex|] eqn:Hnew; [|by left].
  right. exists oldIndex, newIndex.
  split; [by eapply findIndex_lt|]. split; [by eapply findIndex_lt|done].
Qed.

Lemma handleSiteDragEnd_cases event c :
  handleSiteDragEnd event c = c
  ∨ ∃ i j,
      i < length (GroupCard.sites c) ∧ j < length (GroupCard.sites c)
      ∧ handleSiteDragEnd event c
        = GroupCard.setSites (arrayMove (GroupCard.sites c) i j) c.
Proof.
  unfold handleSiteDragEnd.
  destruct (DragEndEvent.over event) as [over|]; [|by left].
  destruct (negb _); [|by left]. cbn zeta.
  destruct (findIndex
              (λ site, String.eqb (siteItemId site) (DragEndEvent.active event))
              (GroupCard.sites c)) as [oldIndex|] eqn:Hold; [|by left].
  destruct (findIndex (λ site, String.eqb (siteItemId site) over)
              (GroupCard.sites c)) as [newIndex|] eqn:Hnew; [|by left].
  right. exists oldIndex, newIndex.
  split; [by eapply findIndex_lt|]. split; [by eapply findIndex_lt|done].
Qed.

(** C6. For valid indices [i] and [j], [move(i, j)] yields a permutation of
    the buffer in which the moved element sits at position [j] and the other
    elements keep their relative order (removing the moved element from the
    result and from the original leaves the same list); when [i = j] the
    buffer is unchanged.  The two drag handlers make no other change: a drag
    dropped on its own item does nothing, and any drag either does nothing or
    is one such move between valid positions. *)
Theorem move_spec {A : Type} (l : list A) (i j : nat)
    (event : DragEndEvent.t) (id : string) (a : App.t) (c : GroupCard.t) :
  i < length l → j < length l →
  arrayMove l i j ≡ₚ l
  ∧ arrayMove l i j !! j = l !! i
  ∧ delete j (arrayMove l i j) = delete i l
  ∧ (i = j → arrayMove l i j = l)
  ∧ handleDragEnd (DragEndEvent.mk id (Some id)) a = a
  ∧ handleSiteDragEnd (DragEndEvent.mk id (Some id)) c = c
  ∧ (handleDragEnd event a = a
     ∨ ∃ i j,
         i < length (App.groups a) ∧ j < length (App.groups a)
         ∧ handleDragEnd event a
           = App.setGroups (arrayMove (App.groups a) i j) a)
  ∧ (handleSiteDragEnd event c = c
     ∨ ∃ i j,
         i < length (GroupCard.sites c) ∧ j < length (GroupCard.sites c)
         ∧ handleSiteDragEnd event c
           = GroupCard.setSites (arrayMove (GroupCard.sites c) i j) c).
Proof.
  intros Hi Hj.
  destruct (arrayMove_valid l i j Hi Hj) as (Hperm & Hat & Hrest & Hsame).
  repeat split; try done.
  - unfold handleDragEnd. cbn. by rewrite String.eqb_refl.
  - unfold handleSiteDragEnd. cbn. by rewrite String.eqb_refl.
  - apply handleDragEnd_cases.
  - apply handleSiteDragEnd_cases.
Qed.

Lemma move_spec_witness :
  arrayMove [siteRepo; siteWiki; siteNews] 0 2 ≡ₚ [siteRepo; siteWiki; siteNews]
  ∧ arrayMove [siteRepo; siteWiki; siteNews] 0 2 !! 2
    = [siteRepo; siteWiki; siteNews] !! 0
  ∧ delete 2 (arrayMove [siteRepo; siteWiki; siteNews] 0 2)
    = delete 0 [siteRepo; siteWiki; siteNews].
Proof.
  pose proof (move_spec [siteRepo; siteWiki; siteNews] 0 2 dragDevOntoDocs "1"
                (sampleApp SortMode.GroupSort None) sampleCard) as H.
  destruct H as (H1 & H2 & H3 & _); [simpl; lia | simpl; lia |].
  exact (conj H1 (conj H2 H3)).
Defined.

(** ** Order commit *)

Section CommitFacts.
Variable api : Api.t.

Lemma fetchData_normal a : completionOf (fetchData api a) = Normal tt.
Proof.
  unfold fetchData, tryFinally, tryCatch.
  match goal with
  | |- context [match ?m a with _ => _ end] =>
      destruct (m a) as [[[[]|e] a1] t1]
  end.
  - reflexivity.
  - cbn. destruct (includes "認證" e); reflexivity.
Qed.

Lemma fetchData_eta a :
  fetchData api a
  = (Normal tt, stateOf (fetchData api a), traceOf (fetchData api a)).
Proof.
  pose proof (fetchData_normal a) as H.
  destruct (fetchData api a) as [[c a1] t1]. cbn in *. by subst.
Qed.

(** When storage accepts the order, the store is refreshed and the session
    is closed. *)
Lemma handleSaveGroupOrder_true a :
  Api.updateGroupOrder api (groupOrdersOf (App.groups a)) = Resolved true →
  handleSaveGroupOrder api a
  = (Normal tt, cancelSort (stateOf (fetchData api a)),
     CallUpdateGroupOrder (groupOrdersOf (App.groups a))
       :: traceOf (fetchData api a)).
Proof.
  intros H. unfold handleSaveGroupOrder. run. rewrite H. run.
  rewrite (fetchData_eta a). run. by rewrite app_nil_r.
Qed.

(** When storage answers [false] or the request fails, only the error
    toast changes. *)
Lemma handleSaveGroupOrder_failed a message :
  Api.updateGroupOrder api (groupOrdersOf (App.groups a)) = Resolved false
    ∧ message = "分組排序更新失敗"
  ∨ Api.updateGroupOrder api (groupOrdersOf (App.groups a)) = Rejected message →
  handleSaveGroupOrder api a
  = (Normal tt,
     App.setSnackbarOpen true
       (App.setSnackbarMessage ("更新分組排序失敗: " +:+ message) a),
     [CallUpdateGroupOrder (groupOrdersOf (App.groups a))]).
Proof.
  intros H. unfold handleSaveGroupOrder. run.
  destruct H as [[-> ->]| ->]; reflexivity.
Qed.

Lemma handleSaveSiteOrder_true groupId sites a :
  Api.updateSiteOrder api (siteOrdersOf sites) = Resolved true →
  handleSaveSiteOrder api groupId sites a
  = (Normal tt, cancelSort (stateOf (fetchData api a)),
     CallUpdateSiteOrder (siteOrdersOf sites) :: traceOf (fetchData api a)).
Proof.
  intros H. unfold handleSaveSiteOrder. run. rewrite H. run.
  rewrite (fetchData_eta a). run. by rewrite app_nil_r.
Qed.

Lemma handleSaveSiteOrder_failed groupId sites a message :
  Api.updateSiteOrder api (siteOrdersOf sites) = Resolved false
    ∧ message = "站點排序更新失敗"
  ∨ Api.updateSiteOrder api (siteOrdersOf sites) = Rejected message →
  handleSaveSiteOrder api groupId sites a
  = (Normal tt,
     App.setSnackbarOpen true
       (App.setSnackbarMessage ("更新站點排序失敗: " +:+ message) a),
     [CallUpdateSiteOrder (siteOrdersOf sites)]).
Proof.
  intros H. unfold handleSaveSiteOrder. run.
  destruct H as [[-> ->]| ->]; reflexivity.
Qed.

(** The first request of a commit carries the order payload. *)
Lemma handleSaveGroupOrder_sends a :
  ∃ rest, traceOf (handleSaveGroupOrder api a)
          = CallUpdateGroupOrder (groupOrdersOf (App.groups a)) :: rest.
Proof.
  destruct (Api.updateGroupOrder api (groupOrdersOf (App.groups a)))
    as [[]|e] eqn:H.
  - rewrite handleSaveGroupOrder_true by done. eauto.
  - rewrite (handleSaveGroupOrder_failed a "分組排序更新失敗") by auto. eauto.
  - rewrite (handleSaveGroupOrder_failed a e) by auto. eauto.
Qed.

Lemma handleSaveSiteOrder_sends groupId sites a :
  ∃ rest, traceOf (handleSaveSiteOrder api groupId sites a)
          = CallUpdateSiteOrder (siteOrdersOf sites) :: rest.
Proof.
  destruct (Api.updateSiteOrder api (siteOrdersOf sites)) as [[]|e] eqn:H.
  - rewrite handleSaveSiteOrder_true by done. eauto.
  - rewrite (handleSaveSiteOrder_failed _ _ a "站點排序更新失敗") by auto. eauto.
  - rewrite (handleSaveSiteOrder_failed _ _ a e) by auto. eauto.
Qed.

(** C4. Committing a buffer of length [n] sends pairs whose [order_num]
    values are exactly 0..n-1: the entry at position [i] carries the id of
    the entity at position [i] of the buffer and [order_num = i], whatever
    [order_num] the entity had; this holds for the group list and for a
    group's site list, and that payload is what the commit handler sends
    (for a card's save button, the payload of the card's site buffer). *)
Theorem commit_orders_by_position
    (a : App.t) (groupId : Z) (sites : list Site.t) :
  let groupOrders := groupOrdersOf (App.groups a) in
  let siteOrders := siteOrdersOf sites in
  OrderItem.order_num <$> groupOrders
    = Z.of_nat <$> seq 0 (length (App.groups a))
  ∧ (∀ i, groupOrders !! i
          = (λ group, OrderItem.mk (Some (GroupWithSites.id group)) (Z.of_nat i))
            <$> App.groups a !! i)
  ∧ OrderItem.order_num <$> siteOrders = Z.of_nat <$> seq 0 (length sites)
  ∧ (∀ i, siteOrders !! i
          = (λ site, OrderItem.mk (Site.id site) (Z.of_nat i)) <$> sites !! i)
  ∧ (∃ rest, traceOf (handleSaveGroupOrder api a)
             = CallUpdateGroupOrder groupOrders :: rest)
  ∧ (∃ rest, traceOf (handleSaveSiteOrder api groupId sites a)
             = CallUpdateSiteOrder siteOrders :: rest)
  ∧ (∀ props c,
       ∃ rest,
         traceOf (handleSaveSiteOrder api (cardHandleSaveSiteOrder props c).1
                    (cardHandleSaveSiteOrder props c).2 a)
         = CallUpdateSiteOrder (siteOrdersOf (GroupCard.sites c)) :: rest).
Proof.
  cbn zeta. unfold groupOrdersOf, siteOrdersOf. repeat split.
  - rewrite fmap_imap. apply (imap_seq_0 _ Z.of_nat).
  - intros i. apply list_lookup_imap.
  - rewrite fmap_imap. apply (imap_seq_0 _ Z.of_nat).
  - intros i. apply list_lookup_imap.
  - apply handleSaveGroupOrder_sends.
  - apply handleSaveSiteOrder_sends.
  - intros props c. apply handleSaveSiteOrder_sends.
Qed.

(** C1, as the code has it. A commit returns the session to Idle when the
    batched order update reports success.  When it reports failure (answers
    [false], or the request itself fails) the handler leaves [sortMode] and
    [currentSortingGroupId] as they were, so the session stays open, and
    surfaces the error in the toast. *)
Theorem commit_session_outcome (a : App.t) (groupId : Z) (sites : list Site.t) :
  (let a' := stateOf (handleSaveGroupOrder api a) in
   match Api.updateGroupOrder api (groupOrdersOf (App.groups a)) with
   | Resolved true =>
       App.sortMode a' = SortMode.None ∧ App.currentSortingGroupId a' = None
   | Resolved false =>
       App.sortMode a' = App.sortMode a
       ∧ App.currentSortingGroupId a' = App.currentSortingGroupId a
       ∧ App.snackbarOpen a' = true
       ∧ App.snackbarMessage a' = "更新分組排序失敗: 分組排序更新失敗"
   | Rejected message =>
       App.sortMode a' = App.sortMode a
       ∧ App.currentSortingGroupId a' = App.currentSortingGroupId a
       ∧ App.snackbarOpen a' = true
       ∧ App.snackbarMessage a' = "更新分組排序失敗: " +:+ message
   end)
  ∧
  (let a' := stateOf (handleSaveSiteOrder api groupId sites a) in
   match Api.updateSiteOrder api (siteOrdersOf sites) with
   | Resolved true =>
       App.sortMode a' = SortMode.None ∧ App.currentSortingGroupId a' = None
   | Resolved false =>
       App.sortMode a' = App.sortMode a
       ∧ App.currentSortingGroupId a' = App.currentSortingGroupId a
       ∧ App.snackbarOpen a' = true
       ∧ App.snackbarMessage a' = "更新站點排序失敗: 站點排序更新失敗"
   | Rejected message =>
       App.sortMode a' = App.sortMode a
       ∧ App.currentSortingGroupId a' = App.currentSortingGroupId a
       ∧ App.snackbarOpen a' = true
       ∧ App.snackbarMessage a' = "更新站點排序失敗: " +:+ message
   end).
Proof.
  split; cbn zeta.
  - destruct (Api.updateGroupOrder api (groupOrdersOf (App.groups a)))
      as [[]|e] eqn:H.
    + by rewrite handleSaveGroupOrder_true.
    + by rewrite (handleSaveGroupOrder_failed a "分組排序更新失敗") by auto.
    + by rewrite (handleSaveGroupOrder_failed a e) by auto.
  - destruct (Api.updateSiteOrder api (siteOrdersOf sites)) as [[]|e] eqn:H.
    + by rewrite handleSaveSiteOrder_true.
    + by rewrite (handleSaveSiteOrder_failed _ _ a "站點排序更新失敗") by auto.
    + by rewrite (handleSaveSiteOrder_failed _ _ a e) by auto.
Qed.

End CommitFacts.

(** C1 as stated fails: with two groups in group sort and a storage that
    answers [false], the commit leaves the session in group sort. *)
Lemma commit_failure_keeps_session_open :
  let a := sampleApp SortMode.GroupSort None in
  App.sortMode a = SortMode.GroupSort
  ∧ Api.updateGroupOrder apiOrderRefused (groupOrdersOf (App.groups a))
    = Resolved false
  ∧ App.sortMode (stateOf (handleSaveGroupOrder apiOrderRefused a))
    ≠ SortMode.None.
Proof. repeat split. vm_compute. discriminate. Qed.



(** ** Cancel *)

(** Cancel in a site sort.  The drags rearranged only the card's local
    buffer, so the store is as it was when the session started; cancel
    resets the session and nothing else, and the card draws the store's site
    list again. *)
Lemma cancel_site_sort_keeps_store
    (a : App.t) (events : list DragEndEvent.t)
    (group : GroupWithSites.t) (c : GroupCard.t) :
  let c' := siteDragAll events c in
  let a' := cancelSort a in
  App.sortMode a' = SortMode.None
  ∧ App.currentSortingGroupId a' = None
  ∧ App.groups a' = App.groups a
  ∧ GroupCard.sites c' ≡ₚ GroupCard.sites c
  ∧ sitesToRender (groupCardProps a' group) c' = GroupWithSites.sites group.
Proof.
  cbn zeta. repeat split.
  revert c. unfold siteDragAll.
  induction events as [|event events' IH]; intros c; simpl; [done|].
  rewrite IH. apply handleSiteDragEnd_perm.
Qed.

(** C3 fails on the code in a group sort.  [handleDragEnd] writes every move
    into the store's group list and [cancelSort] only resets the session:
    after dragging the first group onto the second and cancelling, the page
    is Idle and the store holds the swapped order, which was never saved.
    The site sort does what the claim says, see
    [cancel_site_sort_keeps_store]. *)
Lemma cancel_keeps_group_drags :
  let a := sampleApp SortMode.GroupSort None in
  App.groups (cancelSort (dragAll [dragDevOntoDocs] a)) = [groupDocs; groupDev]
  ∧ App.groups (cancelSort (dragAll [dragDevOntoDocs] a)) ≠ App.groups a.
Proof. split; [reflexivity|]. vm_compute. discriminate. Qed.

(** ** Starting a sort *)

(** While a sort is on, the header does not draw the menu, and no card
    draws its sort button. *)
Lemma appToolbar_in_session (a : App.t) :
  App.sortMode a ≠ SortMode.None → EditSortItem ∉ appToolbar a.
Proof.
  intros Hactive. unfold appToolbar.
  destruct (App.sortMode a); [done| |]; cbn; not_listed.
Qed.

Lemma cardToolbar_in_session (a : App.t) (group : GroupWithSites.t) :
  App.sortMode a ≠ SortMode.None →
  SortButton ∉ cardToolbar (groupCardProps a group).
Proof.
  intros Hactive. unfold cardToolbar, groupCardProps, isCurrentEditingGroup. cbn.
  destruct (App.sortMode a); [done| |]; cbn; try case_bool_decide; not_listed.
Qed.

(** In Idle both controls are drawn and a press reaches the handler. *)
Lemma press_in_idle (a : App.t) (group : GroupWithSites.t) (c : GroupCard.t) :
  App.sortMode a = SortMode.None →
  pressEditSort a = startGroupSort a
  ∧ (rendersGroupCards a = true →
     pressSortButton group (a, c) = clickSort group (a, c)).
Proof.
  intros Hidle. split.
  - unfold pressEditSort, appToolbar. rewrite Hidle. cbn.
    rewrite bool_decide_eq_true_2; [done|].
    do 2 apply list_elem_of_further. apply list_elem_of_here.
  - intros Hcards. unfold pressSortButton. cbn [fst]. rewrite Hcards.
    unfold cardToolbar, groupCardProps, isCurrentEditingGroup. cbn.
    rewrite Hidle. cbn.
    rewrite bool_decide_eq_true_2; [done|].
    apply list_elem_of_further, list_elem_of_here.
Qed.

(** C7. The session is one [sortMode] value with one
    [currentSortingGroupId].  While it is GroupSort or SiteSort, an attempt
    to start another sort is ignored: the menu item that starts the group
    sort and the sort button of every card are not drawn, so a press on
    either leaves the page and the card exactly as they were.  The session
    stays the only one: in a group sort no card is drawn, and the drawn
    cards that show their buffer are those of the one group of the site
    sort. *)
Theorem start_ignored_during_session
    (a : App.t) (group other : GroupWithSites.t) (c : GroupCard.t) :
  App.sortMode a ≠ SortMode.None →
  pressEditSort a = a
  ∧ pressSortButton group (a, c) = (a, c)
  ∧ (EditSortItem ∉ appToolbar a)
  ∧ (SortButton ∉ cardToolbar (groupCardProps a group))
  ∧ (App.sortMode a = SortMode.GroupSort → rendersGroupCards a = false)
  ∧ (rendersGroupCards a = true →
     isCurrentEditingGroup (groupCardProps a group) = true →
     isCurrentEditingGroup (groupCardProps a other) = true →
     App.sortMode a = SortMode.SiteSort
     ∧ App.currentSortingGroupId a = Some (GroupWithSites.id group)
     ∧ GroupWithSites.id other = GroupWithSites.id group).
Proof.
  intros Hactive.
  pose proof (appToolbar_in_session a Hactive) as Hmenu.
  pose proof (cardToolbar_in_session a group Hactive) as Hbutton.
  assert (Hcards : App.sortMode a = SortMode.GroupSort →
                   rendersGroupCards a = false).
  { intros Hgroup. unfold rendersGroupCards. rewrite Hgroup.
    apply andb_false_r. }
  split; [|split; [|split; [done|split; [done|split; [done|]]]]].
  - unfold pressEditSort. by rewrite bool_decide_eq_false_2.
  - unfold pressSortButton. cbn [fst].
    rewrite (bool_decide_eq_false_2 _ Hbutton). by rewrite andb_false_r.
  - unfold isCurrentEditingGroup, groupCardProps. cbn.
    intros Hdrawn [_ Hgroup%bool_decide_eq_true]%andb_true_iff
           [_ Hother%bool_decide_eq_true]%andb_true_iff.
    repeat split; [|done|congruence].
    destruct (App.sortMode a) eqn:Hmode; [done| |done].
    rewrite Hcards in Hdrawn; done.
Qed.

Lemma start_ignored_during_session_witness :
  pressEditSort (sampleApp SortMode.SiteSort (Some 1%Z))
  = sampleApp SortMode.SiteSort (Some 1%Z)
  ∧ pressSortButton groupDocs (sampleApp SortMode.SiteSort (Some 1%Z), sampleCard)
    = (sampleApp SortMode.SiteSort (Some 1%Z), sampleCard).
Proof.
  pose proof (start_ignored_during_session
                (sampleApp SortMode.SiteSort (Some 1%Z)) groupDocs groupDev
                sampleCard) as H.
  destruct H as (Hmenu & Hbutton & _); [simpl; discriminate|].
  split; [exact Hmenu|exact Hbutton].
Defined.

(** C8. For a group with fewer than two sites, the sort button starts
    nothing: [onStartSiteSort] is not called, the page state is untouched
    (an Idle session stays Idle), the card's site buffer is as it was, and
    the card shows the warning. *)
Theorem sort_click_needs_two_sites
    (a : App.t) (group : GroupWithSites.t) (c : GroupCard.t) :
  length (GroupWithSites.sites group) < 2 →
  App.sortMode a = SortMode.None →
  App.currentSortingGroupId a = None →
  let '(a', c') := clickSort group (a, c) in
  a' = a
  ∧ App.sortMode a' = SortMode.None
  ∧ App.currentSortingGroupId a' = None
  ∧ (handleSortClick (groupCardProps a group) c).2 = None
  ∧ GroupCard.sites c' = GroupCard.sites c
  ∧ GroupCard.snackbarOpen c' = true
  ∧ GroupCard.snackbarMessage c' = "至少需要2個站點才能進行排序".
Proof.
  intros Hlen Hmode Hcur. unfold clickSort, handleSortClick.
  cbn [GroupCardProps.group groupCardProps].
  rewrite (proj2 (Nat.ltb_lt _ _) Hlen). done.
Qed.

Lemma sort_click_needs_two_sites_witness :
  let '(a', c') := clickSort groupDocs (sampleApp SortMode.None None, sampleCard) in
  a' = sampleApp SortMode.None None
  ∧ App.sortMode a' = SortMode.None
  ∧ App.currentSortingGroupId a' = None
  ∧ (handleSortClick (groupCardProps (sampleApp SortMode.None None) groupDocs)
       sampleCard).2 = None
  ∧ GroupCard.sites c' = GroupCard.sites sampleCard
  ∧ GroupCard.snackbarOpen c' = true
  ∧ GroupCard.snackbarMessage c' = "至少需要2個站點才能進行排序".
Proof.
  apply (sort_click_needs_two_sites (sampleApp SortMode.None None) groupDocs
           sampleCard); [simpl; lia | reflexivity | reflexivity].
Defined.

(** ** Import validation *)

Section ImportFacts.
Variable api : Api.t.
Variable JSON_parse : string → completion json.

Lemma falsy_or_not_array v :
  negb (truthy v) || negb (isArray v) = negb (isArray v).
Proof. destruct v as [[]|]; simpl; try done; apply orb_true_r. Qed.

Lemma not_object_or_array v :
  isMapping v = false → isArray v = false →
  truthy v && typeofObject v = false.
Proof. destruct v as [[]|]; simpl; try done; intros; apply andb_false_r. Qed.

(** The three checks, in order; [isArray] already implies truthiness. *)
Lemma validateImportData_run importData a :
  validateImportData importData a
  = (match importData with
     | JNull => Throw "Cannot read properties of null (reading 'groups')"
     | _ =>
         if negb (isArray (getProperty importData "groups"))
         then Throw "匯入檔案格式錯誤：缺少分組數據"
         else if negb (isArray (getProperty importData "sites"))
         then Throw "匯入檔案格式錯誤：缺少站點數據"
         else if negb (truthy (getProperty importData "configs")
                       && typeofObject (getProperty importData "configs"))
         then Throw "匯入檔案格式錯誤：缺少配置數據"
         else Normal tt
     end, a, []).
Proof.
  unfold validateImportData, readProperty.
  destruct importData as [| | | | |fields]; try reflexivity.
  run. rewrite !falsy_or_not_array, <- negb_andb.
  destruct (isArray (lookupField "groups" fields)); [|reflexivity].
  destruct (isArray (lookupField "sites" fields)); [|reflexivity].
  by destruct (truthy _ && typeofObject _).
Qed.

(** The callback on a readable, parsable file. *)
Lemma importOnLoad_invalid text importData message a :
  text ≠ "" →
  JSON_parse text = Normal importData →
  completionOf (validateImportData importData a) = Throw message →
  importOnLoad api JSON_parse (Some text) a
  = (Normal tt,
     App.setImportLoading false
       (App.setSnackbarOpen true
          (App.setSnackbarMessage ("解析匯入數據失敗: " +:+ message) a)),
     []).
Proof.
  intros Htext Hparse Hinvalid.
  rewrite validateImportData_run in Hinvalid. cbn in Hinvalid.
  unfold importOnLoad.
  apply String.eqb_neq in Htext.
  run. rewrite Htext. run. rewrite Hparse. run.
  rewrite validateImportData_run. rewrite Hinvalid. reflexivity.
Qed.

(** C9, as the code has it. When [groups] is absent or not an array, or
    [sites] is absent or not an array, or [configs] is absent or is neither
    an object nor an array, the import stops before any request to storage
    and surfaces the format error of the first failing section, in the order
    groups, sites, configs; a [null] document surfaces the read error on
    [groups] instead. *)
Theorem import_rejects_malformed
    (text : string) (importData : json) (a : App.t) :
  text ≠ "" →
  JSON_parse text = Normal importData →
  isArray (getProperty importData "groups") = false
  ∨ isArray (getProperty importData "sites") = false
  ∨ (isMapping (getProperty importData "configs") = false
     ∧ isArray (getProperty importData "configs") = false) →
  let r := handleImportData api JSON_parse (Some (FileLoaded (Some text))) a in
  traceOf r = []
  ∧ App.groups (stateOf r) = App.groups a
  ∧ App.configs (stateOf r) = App.configs a
  ∧ App.snackbarOpen (stateOf r) = true
  ∧ App.snackbarMessage (stateOf r)
    = "解析匯入數據失敗: " +:+
      match importData with
      | JNull => "Cannot read properties of null (reading 'groups')"
      | _ =>
          if negb (isArray (getProperty importData "groups"))
          then "匯入檔案格式錯誤：缺少分組數據"
          else if negb (isArray (getProperty importData "sites"))
          then "匯入檔案格式錯誤：缺少站點數據"
          else "匯入檔案格式錯誤：缺少配置數據"
      end.
Proof.
  intros Htext Hparse Hbad r.
  assert (∃ message,
    completionOf (validateImportData importData
                    (App.setImportLoading false
                       (App.setImportError None (App.setImportLoading true a))))
    = Throw message
    ∧ message
      = match importData with
        | JNull => "Cannot read properties of null (reading 'groups')"
        | _ =>
            if negb (isArray (getProperty importData "groups"))
            then "匯入檔案格式錯誤：缺少分組數據"
            else if negb (isArray (getProperty importData "sites"))
            then "匯入檔案格式錯誤：缺少站點數據"
            else "匯入檔案格式錯誤：缺少配置數據"
        end) as (message & Hthrow & Hmessage).
  { rewrite validateImportData_run. cbn.
    destruct importData as [| | | | |fields];
      try (eexists; split; reflexivity).
    cbn in *.
    destruct (isArray (lookupField "groups" fields));
      [|eexists; split; reflexivity].
    destruct (isArray (lookupField "sites" fields));
      [|eexists; split; reflexivity].
    destruct Hbad as [?|[?|[Hmap Harr]]]; [done..|].
    rewrite (not_object_or_array _ Hmap Harr).
    eexists; split; reflexivity. }
  subst r. unfold handleImportData. run.
  rewrite (importOnLoad_invalid text importData message _ Htext Hparse Hthrow).
  rewrite <- Hmessage. done.
Qed.
End ImportFacts.

Lemma import_rejects_malformed_witness :
  let r := handleImportData apiHealthy (parseAs payloadNoSites)
             (Some (FileLoaded (Some "{}"))) (sampleApp SortMode.None None) in
  traceOf r = []
  ∧ App.groups (stateOf r) = App.groups (sampleApp SortMode.None None)
  ∧ App.configs (stateOf r) = App.configs (sampleApp SortMode.None None)
  ∧ App.snackbarOpen (stateOf r) = true
  ∧ App.snackbarMessage (stateOf r)
    = "解析匯入數據失敗: " +:+ "匯入檔案格式錯誤：缺少站點數據".
Proof.
  apply (import_rejects_malformed apiHealthy (parseAs payloadNoSites)
           "{}" payloadNoSites (sampleApp SortMode.None None)).
  - discriminate.
  - reflexivity.
  - right. left. reflexivity.
Defined.

(** C9 as stated fails: a file whose [configs] is an array, which is not a
    key-value mapping, passes the checks and is handed to storage. *)
Lemma import_accepts_configs_array :
  let r := handleImportData apiHealthy (parseAs payloadConfigsArray)
             (Some (FileLoaded (Some "{}"))) (sampleApp SortMode.None None) in
  isMapping (getProperty payloadConfigsArray "configs") = false
  ∧ CallImportData payloadConfigsArray ∈ traceOf r
  ∧ App.snackbarOpen (stateOf r) = false.
Proof.
  repeat split. vm_compute. apply list_elem_of_here.
Qed.

(** ** Export *)

Lemma allSitesOf_concat groups :
  allSitesOf groups = concat (GroupWithSites.sites <$> groups).
Proof.
  unfold allSitesOf.
  enough (∀ acc,
    foldl (λ allSites group,
             if 0 <? length (GroupWithSites.sites group)
             then allSites ++ GroupWithSites.sites group
             else allSites) acc groups
    = acc ++ concat (GroupWithSites.sites <$> groups)) as H by apply (H []).
  induction groups as [|group groups IH]; intros acc; simpl.
  - by rewrite app_nil_r.
  - rewrite IH. destruct (GroupWithSites.sites group) as [|site sites]; simpl.
    + done.
    + by rewrite <- app_assoc.
Qed.

Lemma handleExportData_run exportDate a :
  handleExportData exportDate a
  = (Normal (exportData exportDate a), App.setLoading false (App.setLoading true a), []).
Proof. reflexivity. Qed.

(** A document that passes the checks is handed to storage as it is. *)
Lemma importOnLoad_valid api JSON_parse text importData a :
  text ≠ "" →
  JSON_parse text = Normal importData →
  completionOf (validateImportData importData a) = Normal tt →
  ∃ rest, traceOf (importOnLoad api JSON_parse (Some text) a)
          = CallImportData importData :: rest.
Proof.
  intros Htext Hparse Hvalid.
  rewrite validateImportData_run in Hvalid. cbn in Hvalid.
  unfold importOnLoad.
  apply String.eqb_neq in Htext.
  run. rewrite Htext. run. rewrite Hparse. run.
  rewrite validateImportData_run. rewrite Hvalid.
  destruct (Api.importData api importData) as [result|e]; run; [|eauto].
  destruct (negb (ImportResult.success result)); run; [eauto|].
  destruct (ImportResult.stats result); run.
  all: match goal with
       | |- context [fetchData ?p ?x] =>
           destruct (fetchData p x) as [[[[]|?] ?] ?]
       end; run; eauto.
  all: match goal with
       | |- context [fetchConfigs ?p ?x] =>
           destruct (fetchConfigs p x) as [[[[]|?] ?] ?]
       end; run; eauto.
Qed.

(** C10. The document the export writes has [groups] as an array whose
    entries carry exactly id, name and order_num, [sites] as one array of the
    sites of all groups, and [configs] as an object; it passes the format
    checks of the import, which then hands it to storage. *)
Theorem export_passes_import_checks (exportDate : string) (a b : App.t) :
  let doc := exportData exportDate a in
  completionOf (handleExportData exportDate a) = Normal doc
  ∧ getProperty doc "groups" = Some (JArray (exportGroup <$> App.groups a))
  ∧ (∀ group, exportGroup group
              = JObject [("id", JNumber (GroupWithSites.id group));
                         ("name", JString (GroupWithSites.name group));
                         ("order_num", JNumber (GroupWithSites.order_num group))])
  ∧ getProperty doc "sites"
    = Some (JArray (siteToJson <$> concat (GroupWithSites.sites <$> App.groups a)))
  ∧ isMapping (getProperty doc "configs") = true
  ∧ validateImportData doc b = (Normal tt, b, [])
  ∧ (∀ api JSON_parse text,
       text ≠ "" → JSON_parse text = Normal doc →
       ∃ rest, traceOf (importOnLoad api JSON_parse (Some text) b)
               = CallImportData doc :: rest).
Proof.
  intros doc.
  assert (Hvalid : validateImportData doc b = (Normal tt, b, []))
    by (by rewrite validateImportData_run).
  repeat split; try done.
  - cbn. by rewrite allSitesOf_concat.
  - intros api JSON_parse text Htext Hparse.
    apply importOnLoad_valid; [done..|]. by rewrite Hvalid.
Qed.

Lemma export_passes_import_checks_witness :
  let doc := exportData "2025-01-01T00:00:00.000Z" (sampleApp SortMode.None None) in
  ∃ rest,
    traceOf (importOnLoad apiHealthy (parseAs doc) (Some "{}")
               (sampleApp SortMode.None None))
    = CallImportData doc :: rest.
Proof.
  apply (export_passes_import_checks "2025-01-01T00:00:00.000Z"
           (sampleApp SortMode.None None) (sampleApp SortMode.None None)).
  - discriminate.
  - reflexivity.
Defined.

(** ** Re-importing a snapshot *)

Section FindFacts.
Context {A : Type}.
Implicit Types (p q : A → bool) (l k : list A).





End FindFacts.

(** *** The group pass *)







(** *** Updating the first match *)

Section UpdateFirstFacts.
Context {A : Type}.
Implicit Types (p q : A → bool) (f g : A → A) (l k : list A).


Lemma updateFirst_none p f l :
  List.find p l = None → updateFirst p f l = l.
Proof.
  intros Hfind. induction l as [|y l IH]; simpl in *; [done|].
  destruct (p y); [done|]. by rewrite IH.
Qed.





End UpdateFirstFacts.

(** *** The site pass *)

Section SitePassFacts.
Variable idMap : list (Z * Z).

































End SitePassFacts.

(** *** Two imports in a row *)




(** The example of section 8 on the model: into an empty storage, one
    group and one site are created and the configuration pair is set. *)
Lemma import_into_empty_store :
  (importDataset emptyStore snapshotDev).2
  = ImportStats.mk (GroupStats.mk 1 1 0) (SiteStats.mk 1 1 0 0)
  ∧ Store.configs (importDataset emptyStore snapshotDev).1 !! "site.title"
    = Some "X".
Proof. split; [reflexivity|]. by vm_compute. Qed.

(** * Further properties *)

Ltac step :=
  unfold mbind, mret, M_bind, M_ret, bind, ret, get, set, await, throw,
    tryCatch, tryFinally, handleError;
  cbn -[fetchData fetchConfigs groupOrdersOf siteOrdersOf promiseAll
       DEFAULT_CONFIGS].

(** ** Refresh *)

Lemma promiseAll_cons {X} (m : M X) rest a :
  promiseAll (m :: rest) a
  = let '(r, a1, t1) := m a in
    let '(rs, a2, t2) := promiseAll rest a1 in
    (match r, rs with
     | Normal x, Normal xs => Normal (x :: xs)
     | Throw e, _ => Throw e
     | Normal _, Throw e => Throw e
     end, a2, t1 ++ t2).
Proof. reflexivity. Qed.

Section FetchFacts.
Variable api : Api.t.

Lemma siteRequests_cons group groupsData :
  siteRequests api (group :: groupsData)
  = match Group.id group with
    | Some id =>
        (sites ← await (CallGetSites id) (Api.getSites api id);
         mret (GroupWithSites.mk id (Group.name group)
                 (Group.order_num group) sites))
        :: siteRequests api groupsData
    | None => siteRequests api groupsData
    end.
Proof. unfold siteRequests. simpl. by destruct (Group.id group). Qed.

(** The site requests do not touch the state, and all of them are sent. *)
Lemma siteRequests_run groupsData :
  ∃ c, ∀ a,
    promiseAll (siteRequests api groupsData) a
    = (c, a, CallGetSites <$> omap Group.id groupsData).
Proof.
  induction groupsData as [|group groupsData [c IH]].
  - by exists (Normal []).
  - rewrite siteRequests_cons. cbn [omap list_omap].
    destruct (Group.id group) as [id|]; [|by exists c].
    destruct (Api.getSites api id) as [sites|e].
    + exists (match c with
              | Normal xs =>
                  Normal (GroupWithSites.mk id (Group.name group)
                            (Group.order_num group) sites :: xs)
              | Throw e => Throw e
              end).
      intros a. rewrite promiseAll_cons. step. rewrite IH. by destruct c.
    + exists (Throw e). intros a. rewrite promiseAll_cons. step.
      rewrite IH. by destruct c.
Qed.

Lemma siteRequests_resolved sitesOf groupsData a :
  (∀ group id, group ∈ groupsData → Group.id group = Some id →
               Api.getSites api id = Resolved (sitesOf id)) →
  promiseAll (siteRequests api groupsData) a
  = (Normal (omap (withSites sitesOf) groupsData), a,
     CallGetSites <$> omap Group.id groupsData).
Proof.
  induction groupsData as [|group groupsData IH]; intros H; [done|].
  rewrite siteRequests_cons. cbn [omap list_omap]. unfold withSites at 1.
  assert (Hrest : ∀ g i, g ∈ groupsData → Group.id g = Some i →
                         Api.getSites api i = Resolved (sitesOf i)).
  { intros g i Hg. apply H. by apply list_elem_of_further. }
  destruct (Group.id group) as [id|] eqn:Hid; [|by apply IH].
  rewrite promiseAll_cons. step.
  rewrite (H group id); [|apply list_elem_of_here|done].
  by rewrite IH.
Qed.

Lemma siteRequests_rejected groupsData a message :
  completionOf (promiseAll (siteRequests api groupsData) a) = Throw message →
  ∃ group id, group ∈ groupsData ∧ Group.id group = Some id
              ∧ Api.getSites api id = Rejected message.
Proof.
  induction groupsData as [|group groupsData IH]; [done|].
  rewrite siteRequests_cons.
  assert (Hrest : completionOf (promiseAll (siteRequests api groupsData) a)
                  = Throw message →
                  ∃ g i, g ∈ group :: groupsData ∧ Group.id g = Some i
                         ∧ Api.getSites api i = Rejected message).
  { intros H. destruct (IH H) as (g & i & Hg & Hi & Hr).
    exists g, i. split; [by apply list_elem_of_further|done]. }
  destruct (Group.id group) as [id|] eqn:Hid; [|done].
  rewrite promiseAll_cons. step.
  destruct (siteRequests_run groupsData) as [c Hc].
  rewrite Hc in Hrest.
  destruct (Api.getSites api id) as [sites|e] eqn:Hsites; simpl; rewrite Hc.
  - destruct c as [xs|e]; [done|]. intros [= <-]. by apply Hrest.
  - intros [= <-]. exists group, id. split; [apply list_elem_of_here|done].
Qed.

Lemma siteRequests_normal groupsData a groupsWithSites :
  completionOf (promiseAll (siteRequests api groupsData) a)
  = Normal groupsWithSites →
  groupsWithSites = omap (withSites (sitesAnswered api)) groupsData
  ∧ ∀ group id, group ∈ groupsData → Group.id group = Some id →
                Api.getSites api id = Resolved (sitesAnswered api id).
Proof.
  revert groupsWithSites.
  induction groupsData as [|group groupsData IH]; intros gws.
  - intros [= <-]. split; [done|]. by intros ? ? ?%elem_of_nil.
  - rewrite siteRequests_cons. cbn [omap list_omap]. unfold withSites at 1.
    destruct (Group.id group) as [id|] eqn:Hid.
    + rewrite promiseAll_cons. step.
      destruct (siteRequests_run groupsData) as [c Hc].
      rewrite Hc in IH.
      destruct (Api.getSites api id) as [sites|e] eqn:Hsites; simpl; rewrite Hc;
        [|done].
      destruct c as [xs|e]; [|done]. intros [= <-].
      destruct (IH xs eq_refl) as [-> Hall].
      assert (Hans : sitesAnswered api id = sites)
        by (unfold sitesAnswered; by rewrite Hsites).
      split.
      * by rewrite Hans.
      * intros g i [->|Hg]%elem_of_cons Hi; [|by eapply Hall].
        rewrite Hid in Hi. injection Hi as <-. by rewrite Hans.
    + intros H. destruct (IH gws H) as [-> Hall]. split; [done|].
      intros g i [->|Hg]%elem_of_cons Hi; [congruence|by eapply Hall].
Qed.

(** What a refresh does, by the outcome of its requests. *)
Lemma fetchData_run a :
  fetchData api a
  = let a0 := App.setError None (App.setLoading true a) in
    match Api.getGroups api with
    | Resolved groupsData =>
        let '(c, _, t) := promiseAll (siteRequests api groupsData) a0 in
        (Normal tt,
         App.setLoading false
           match c with
           | Normal groupsWithSites => App.setGroups groupsWithSites a0
           | Throw message =>
               authStep message
                 (App.setSnackbarOpen true
                    (App.setSnackbarMessage ("載入數據失敗: " +:+ message) a0))
           end,
         CallGetGroups :: t)
    | Rejected message =>
        (Normal tt,
         App.setLoading false
           (authStep message
              (App.setSnackbarOpen true
                 (App.setSnackbarMessage ("載入數據失敗: " +:+ message) a0))),
         [CallGetGroups])
    end.
Proof.
  unfold fetchData, authStep. fold (siteRequests api). step.
  destruct (Api.getGroups api) as [groupsData|e]; step.
  - destruct (siteRequests_run groupsData) as [c Hc]. rewrite !Hc.
    destruct c as [xs|e]; step.
    + by rewrite !app_nil_r.
    + destruct (includes "認證" e); step; by rewrite !app_nil_r.
  - by destruct (includes "認證" e).
Qed.

(** X1. A refresh never throws and always ends with the loading flag off
    and the page error cleared; it leaves the sort session, the
    configuration and the import dialog as they were. *)
Theorem fetchData_keeps_session (a : App.t) :
  let a' := stateOf (fetchData api a) in
  completionOf (fetchData api a) = Normal tt
  ∧ App.loading a' = false
  ∧ App.error a' = None
  ∧ App.sortMode a' = App.sortMode a
  ∧ App.currentSortingGroupId a' = App.currentSortingGroupId a
  ∧ App.configs a' = App.configs a
  ∧ App.tempConfigs a' = App.tempConfigs a
  ∧ App.openImport a' = App.openImport a
  ∧ App.importLoading a' = App.importLoading a
  ∧ App.importResultOpen a' = App.importResultOpen a.
Proof.
  cbn zeta. rewrite fetchData_run. cbn zeta. unfold authStep.
  destruct (Api.getGroups api) as [groupsData|e].
  - destruct (promiseAll _ _) as [[[xs|e] a1] t1]; [done|].
    by destruct (includes "認證" e).
  - by destruct (includes "認證" e).
Qed.

(** A refresh whose requests are all answered. *)
Lemma fetchData_resolved a groupsData sitesOf :
  Api.getGroups api = Resolved groupsData →
  (∀ group id, group ∈ groupsData → Group.id group = Some id →
               Api.getSites api id = Resolved (sitesOf id)) →
  fetchData api a
  = (Normal tt,
     App.setLoading false
       (App.setGroups (omap (withSites sitesOf) groupsData)
          (App.setError None (App.setLoading true a))),
     CallGetGroups :: (CallGetSites <$> omap Group.id groupsData)).
Proof.
  intros Hgroups Hsites. rewrite fetchData_run, Hgroups. cbn zeta.
  by rewrite (siteRequests_resolved sitesOf).
Qed.

(** X2. When storage answers the group list and the site list of every
    group, a refresh replaces the store by the fetched groups in the order
    received, each with its sites, dropping the groups that carry no id; it
    asks for the groups first and then for each group's sites in that order,
    and shows no error. *)
Theorem fetchData_replaces_store
    (a : App.t) (groupsData : list Group.t) (sitesOf : Z → list Site.t) :
  Api.getGroups api = Resolved groupsData →
  (∀ group id, group ∈ groupsData → Group.id group = Some id →
               Api.getSites api id = Resolved (sitesOf id)) →
  let a' := stateOf (fetchData api a) in
  App.groups a' = omap (withSites sitesOf) groupsData
  ∧ traceOf (fetchData api a)
    = CallGetGroups :: (CallGetSites <$> omap Group.id groupsData)
  ∧ App.snackbarOpen a' = App.snackbarOpen a
  ∧ App.snackbarMessage a' = App.snackbarMessage a
  ∧ App.isAuthRequired a' = App.isAuthRequired a
  ∧ App.isAuthenticated a' = App.isAuthenticated a.
Proof.
  intros Hgroups Hsites. cbn zeta.
  by rewrite (fetchData_resolved a groupsData sitesOf).
Qed.

(** X3. A refresh is all or nothing.  Either every request was answered and
    the store holds the complete fetched list, or some request was rejected:
    then the store keeps the groups it had, the toast shows the message of a
    rejected request, and the page asks for a login exactly when that
    message mentions authentication. *)
Theorem fetchData_all_or_nothing (a : App.t) :
  let a' := stateOf (fetchData api a) in
  (∃ groupsData,
     Api.getGroups api = Resolved groupsData
     ∧ (∀ group id, group ∈ groupsData → Group.id group = Some id →
                    Api.getSites api id = Resolved (sitesAnswered api id))
     ∧ App.groups a' = omap (withSites (sitesAnswered api)) groupsData)
  ∨ (∃ message,
       (Api.getGroups api = Rejected message
        ∨ ∃ groupsData group id,
            Api.getGroups api = Resolved groupsData ∧ group ∈ groupsData
            ∧ Group.id group = Some id
            ∧ Api.getSites api id = Rejected message)
       ∧ App.groups a' = App.groups a
       ∧ App.snackbarOpen a' = true
       ∧ App.snackbarMessage a' = "載入數據失敗: " +:+ message
       ∧ (if includes "認證" message
          then App.isAuthRequired a' = true ∧ App.isAuthenticated a' = false
          else App.isAuthRequired a' = App.isAuthRequired a
               ∧ App.isAuthenticated a' = App.isAuthenticated a)).
Proof.
  cbn zeta. rewrite fetchData_run. cbn zeta. unfold authStep.
  destruct (Api.getGroups api) as [groupsData|e] eqn:Hgroups.
  - destruct (promiseAll _ _) as [[[xs|e] a1] t1] eqn:Hall.
    + left. exists groupsData.
      destruct (siteRequests_normal groupsData
                  (App.setError None (App.setLoading true a)) xs) as [-> H].
      { by rewrite Hall. }
      done.
    + right. exists e.
      destruct (siteRequests_rejected groupsData
                  (App.setError None (App.setLoading true a)) e)
        as (group & id & Hin & Hid & Hrej).
      { by rewrite Hall. }
      split; [right; by exists groupsData, group, id|].
      by destruct (includes "認證" e).
  - right. exists e. split; [by left|]. by destruct (includes "認證" e).
Qed.
End FetchFacts.

Lemma fetchData_replaces_store_witness :
  App.groups (stateOf (fetchData apiHealthy (sampleApp SortMode.None None)))
  = [groupDev; groupDocs].
Proof.
  pose proof (fetchData_replaces_store apiHealthy (sampleApp SortMode.None None)
                [Group.mk (Some 1%Z) "Dev" 0; Group.mk (Some 2%Z) "Docs" 1]
                (λ groupId, if (groupId =? 1)%Z then [siteRepo; siteWiki]
                            else [siteNews])) as H.
  destruct H as [H _]; [reflexivity| |exact H].
  intros group id Hin Hid. reflexivity.
Defined.

(** ** Configuration refresh *)

(** X4. Loading the configuration never throws.  When storage answers, the
    shown and the edited configuration both become the fetched pairs laid
    over the defaults: a fetched key wins, every other default stays.  When
    the request fails, nothing changes. *)
Theorem fetchConfigs_over_defaults (api : Api.t) (a : App.t) (key : string) :
  let a' := stateOf (fetchConfigs api a) in
  completionOf (fetchConfigs api a) = Normal tt
  ∧ traceOf (fetchConfigs api a) = [CallGetConfigs]
  ∧ match Api.getConfigs api with
    | Resolved configsData =>
        App.configs a' !! key
        = match configsData !! key with
          | Some value => Some value
          | None => DEFAULT_CONFIGS !! key
          end
        ∧ App.tempConfigs a' = App.configs a'
        ∧ App.groups a' = App.groups a
    | Rejected _ => a' = a
    end.
Proof.
  cbn zeta. unfold fetchConfigs. step.
  destruct (Api.getConfigs api) as [configsData|e]; step; [|done].
  repeat split.
  destruct (configsData !! key) as [value|] eqn:Hkey.
  - by apply lookup_union_Some_l.
  - by apply lookup_union_r.
Qed.

(** ** Commit followed by refresh *)

Section CommitRefresh.
Variable api : Api.t.

(** X5. When storage accepts a group order and then answers the refresh,
    the commit sends the staged order first and the refresh after it, the
    store shows what storage returned rather than the staged order, and the
    session is Idle. *)
Theorem commit_then_refresh
    (a : App.t) (groupsData : list Group.t) (sitesOf : Z → list Site.t) :
  Api.updateGroupOrder api (groupOrdersOf (App.groups a)) = Resolved true →
  Api.getGroups api = Resolved groupsData →
  (∀ group id, group ∈ groupsData → Group.id group = Some id →
               Api.getSites api id = Resolved (sitesOf id)) →
  let r := handleSaveGroupOrder api a in
  traceOf r
  = CallUpdateGroupOrder (groupOrdersOf (App.groups a))
    :: CallGetGroups :: (CallGetSites <$> omap Group.id groupsData)
  ∧ App.groups (stateOf r) = omap (withSites sitesOf) groupsData
  ∧ App.sortMode (stateOf r) = SortMode.None
  ∧ App.currentSortingGroupId (stateOf r) = None
  ∧ App.snackbarOpen (stateOf r) = App.snackbarOpen a.
Proof.
  intros Hupdate Hgroups Hsites. cbn zeta.
  rewrite handleSaveGroupOrder_true by done.
  by rewrite (fetchData_resolved api a groupsData sitesOf).
Qed.

(** A refresh with a rejected request does not fill the store. *)
Lemma siteRequests_some_rejected groupsData a group id message :
  group ∈ groupsData → Group.id group = Some id →
  Api.getSites api id = Rejected message →
  ∃ shown, completionOf (promiseAll (siteRequests api groupsData) a) = Throw shown.
Proof.
  intros Hin Hid Hrejected.
  destruct (completionOf (promiseAll (siteRequests api groupsData) a))
    as [groupsWithSites|shown] eqn:Hall; [|by exists shown].
  destruct (siteRequests_normal api groupsData a groupsWithSites Hall) as [_ Hans].
  rewrite (Hans group id Hin Hid) in Hrejected. discriminate.
Qed.

(** X6. When storage accepts a group order but the refresh that follows
    fails, on the group list or on the site list of any group, the session
    still closes: the page is Idle, the store keeps the staged order that was
    just saved, and the toast reports the failed load with the message of a
    rejected request.  The order update is sent first, the group list is
    asked for next, and the site lists only when the group list was
    answered. *)
Theorem commit_then_failed_refresh (a : App.t) :
  Api.updateGroupOrder api (groupOrdersOf (App.groups a)) = Resolved true →
  ((∃ message, Api.getGroups api = Rejected message)
   ∨ ∃ groupsData group id message,
       Api.getGroups api = Resolved groupsData ∧ group ∈ groupsData
       ∧ Group.id group = Some id
       ∧ Api.getSites api id = Rejected message) →
  let r := handleSaveGroupOrder api a in
  traceOf r
  = CallUpdateGroupOrder (groupOrdersOf (App.groups a)) :: CallGetGroups
    :: match Api.getGroups api with
       | Resolved groupsData => CallGetSites <$> omap Group.id groupsData
       | Rejected _ => []
       end
  ∧ App.groups (stateOf r) = App.groups a
  ∧ App.sortMode (stateOf r) = SortMode.None
  ∧ App.currentSortingGroupId (stateOf r) = None
  ∧ App.snackbarOpen (stateOf r) = true
  ∧ ∃ shown,
      (Api.getGroups api = Rejected shown
       ∨ ∃ groupsData group id,
           Api.getGroups api = Resolved groupsData ∧ group ∈ groupsData
           ∧ Group.id group = Some id
           ∧ Api.getSites api id = Rejected shown)
      ∧ App.snackbarMessage (stateOf r) = "載入數據失敗: " +:+ shown.
Proof.
  intros Hupdate Hfails. cbn zeta.
  rewrite handleSaveGroupOrder_true by done.
  rewrite fetchData_run. unfold authStep.
  destruct (Api.getGroups api) as [groupsData|e] eqn:Hgroups.
  - destruct Hfails as [[message [=]]|(gd & group & id & message & [= <-] & Hin & Hid & Hrej)].
    set (a0 := App.setError None
                 (App.setLoading true
                    (App.setCurrentSortingGroupId None
                       (App.setSortMode SortMode.None a)))).
    destruct (siteRequests_some_rejected groupsData a0 group id message Hin Hid Hrej)
      as [shown Hshown].
    destruct (siteRequests_run api groupsData) as [c Hc].
    rewrite Hc in Hshown |- *. cbn in Hshown. subst c.
    destruct (siteRequests_rejected api groupsData a0 shown)
      as (g & i & Hg & Hi & Hr); [by rewrite Hc|].
    cbn zeta. repeat split; try by destruct (includes "認證" shown).
    exists shown. split; [right; by exists groupsData, g, i|].
    by destruct (includes "認證" shown).
  - cbn zeta. repeat split; try by destruct (includes "認證" e).
    exists e. split; [by left|]. by destruct (includes "認證" e).
Qed.
End CommitRefresh.

Lemma commit_then_refresh_witness :
  App.groups
    (stateOf (handleSaveGroupOrder apiHealthy
                (dragAll [dragDevOntoDocs] (sampleApp SortMode.GroupSort None))))
  = [groupDev; groupDocs].
Proof.
  pose proof (commit_then_refresh apiHealthy
                (dragAll [dragDevOntoDocs] (sampleApp SortMode.GroupSort None))
                [Group.mk (Some 1%Z) "Dev" 0; Group.mk (Some 2%Z) "Docs" 1]
                (λ groupId, if (groupId =? 1)%Z then [siteRepo; siteWiki]
                            else [siteNews])) as H.
  destruct H as (_ & H & _); [reflexivity|reflexivity| |exact H].
  intros group id Hin Hid. reflexivity.
Defined.

Lemma commit_then_failed_refresh_witness :
  App.groups
    (stateOf (handleSaveGroupOrder apiSitesDown
                (dragAll [dragDevOntoDocs] (sampleApp SortMode.GroupSort None))))
  = [groupDocs; groupDev].
Proof.
  pose proof (commit_then_failed_refresh apiSitesDown
                (dragAll [dragDevOntoDocs] (sampleApp SortMode.GroupSort None)))
    as H.
  destruct H as (_ & H & _); [reflexivity| |exact H].
  right. exists [Group.mk (Some 1%Z) "Dev" 0; Group.mk (Some 2%Z) "Docs" 1],
                (Group.mk (Some 1%Z) "Dev" 0), 1%Z, "offline".
  repeat split. apply list_elem_of_here.
Defined.

(** ** Import *)

(** The format checks accept exactly the documents with two arrays and an
    object (or array) of configuration. *)
Lemma validateImportData_accepts importData a :
  completionOf (validateImportData importData a) = Normal tt
  ↔ isArray (getProperty importData "groups") = true
    ∧ isArray (getProperty importData "sites") = true
    ∧ (isMapping (getProperty importData "configs") = true
       ∨ isArray (getProperty importData "configs") = true).
Proof.
  rewrite validateImportData_run. cbn.
  destruct importData as [| | | | |fields]; cbn;
    try (split; [done|by intros [? _]]).
  destruct (isArray (lookupField "groups" fields)); cbn;
    [|split; [done|by intros [? _]]].
  destruct (isArray (lookupField "sites" fields)); cbn;
    [|split; [done|by intros (_ & ? & _)]].
  destruct (lookupField "configs" fields) as [[|[]|z|s|l|f]|]; cbn;
    try (split; [done|by intros (_ & _ & [?|?])]);
    try (split; [intros _; auto|done]).
  - rewrite andb_false_r. cbn. split; [done|by intros (_ & _ & [?|?])].
  - rewrite andb_false_r. cbn. split; [done|by intros (_ & _ & [?|?])].
Qed.

Section ImportMore.
Variable api : Api.t.
Variable JSON_parse : string → completion json.

(** The state in which the reader's callback starts. *)
Lemma handleImportData_loaded result a :
  handleImportData api JSON_parse (Some (FileLoaded result)) a
  = importOnLoad api JSON_parse result
      (App.setImportLoading false
         (App.setImportError None (App.setImportLoading true a))).
Proof.
  unfold handleImportData. step.
  by destruct (importOnLoad _ _ _ _) as [[c a1] t1].
Qed.

(** The callback reports every failure itself and ends with the loading
    flag off. *)
Lemma importOnLoad_completes result a :
  completionOf (importOnLoad api JSON_parse result a) = Normal tt
  ∧ App.importLoading (stateOf (importOnLoad api JSON_parse result a)) = false.
Proof.
  unfold importOnLoad, tryFinally, tryCatch.
  match goal with
  | |- context [match ?m a with _ => _ end] =>
      destruct (m a) as [[[[]|e] a1] t1]
  end; by cbn.
Qed.

(** A file that cannot be used: nothing is requested. *)
Lemma importOnLoad_unusable result a :
  (result = None ∨ result = Some ""
   ∨ ∃ text message, result = Some text ∧ JSON_parse text = Throw message) →
  traceOf (importOnLoad api JSON_parse result a) = [].
Proof.
  unfold importOnLoad. intros [->|[->|(text & message & -> & Hparse)]]; step;
    [done..|].
  destruct (String.eqb text ""); step; [done|]. by rewrite Hparse.
Qed.

(** X7. The import asks storage for nothing unless a file was chosen, read,
    not empty, parsed, and passed the format checks; the first request is
    then the import of the parsed document. *)
Theorem import_requests_need_valid_file (importFile : option FileRead) (a : App.t) :
  traceOf (handleImportData api JSON_parse importFile a) ≠ [] →
  ∃ text importData rest,
    importFile = Some (FileLoaded (Some text))
    ∧ text ≠ ""
    ∧ JSON_parse text = Normal importData
    ∧ isArray (getProperty importData "groups") = true
    ∧ isArray (getProperty importData "sites") = true
    ∧ (isMapping (getProperty importData "configs") = true
       ∨ isArray (getProperty importData "configs") = true)
    ∧ traceOf (handleImportData api JSON_parse importFile a)
      = CallImportData importData :: rest.
Proof.
  destruct importFile as [[result|]|]; [|done..].
  rewrite handleImportData_loaded.
  set (a0 := App.setImportLoading false _).
  destruct result as [text|];
    [|by rewrite importOnLoad_unusable by auto].
  destruct (String.eqb_spec text "") as [->|Htext];
    [by rewrite importOnLoad_unusable by auto|].
  destruct (JSON_parse text) as [importData|message] eqn:Hparse;
    [|by rewrite importOnLoad_unusable by eauto 6].
  destruct (completionOf (validateImportData importData a0)) as [[]|message]
    eqn:Hvalid.
  - intros _.
    destruct (importOnLoad_valid api JSON_parse text importData a0)
      as [rest Hrest]; [done..|].
    apply validateImportData_accepts in Hvalid as (? & ? & ?).
    by exists text, importData, rest.
  - by rewrite (importOnLoad_invalid api JSON_parse text importData message).
Qed.

(** X8. For any chosen file, whatever the reader, the parser and storage
    answer, the import handler ends normally with the loading flag off. *)
Theorem import_always_completes (file : FileRead) (a : App.t) :
  let r := handleImportData api JSON_parse (Some file) a in
  completionOf r = Normal tt ∧ App.importLoading (stateOf r) = false.
Proof.
  destruct file as [result|]; cbn zeta.
  - rewrite handleImportData_loaded. apply importOnLoad_completes.
  - done.
Qed.

(** The callback on a valid document, up to the answer of storage. *)
Lemma importOnLoad_answer text importData a :
  text ≠ "" →
  JSON_parse text = Normal importData →
  completionOf (validateImportData importData a) = Normal tt →
  importOnLoad api JSON_parse (Some text) a
  = match Api.importData api importData with
    | Resolved result =>
        if ImportResult.success result then
          let a1 := match ImportResult.stats result with
                    | Some stats =>
                        App.setImportResultOpen true
                          (App.setImportResultMessage (importSummary stats) a)
                    | None => a
                    end in
          let a2 := stateOf (fetchData api a1) in
          (Normal tt,
           App.setImportLoading false
             (App.setOpenImport false (stateOf (fetchConfigs api a2))),
           CallImportData importData
             :: traceOf (fetchData api a1) ++ [CallGetConfigs])
        else
          (Normal tt,
           App.setImportLoading false
             (App.setSnackbarOpen true
                (App.setSnackbarMessage
                   ("解析匯入數據失敗: " +:+
                    match ImportResult.error result with
                    | Some e => if String.eqb e "" then "匯入失敗" else e
                    | None => "匯入失敗"
                    end) a)),
           [CallImportData importData])
    | Rejected message =>
        (Normal tt,
         App.setImportLoading false
           (App.setSnackbarOpen true
              (App.setSnackbarMessage ("解析匯入數據失敗: " +:+ message) a)),
         [CallImportData importData])
    end.
Proof.
  intros Htext Hparse Hvalid.
  rewrite validateImportData_run in Hvalid. cbn in Hvalid.
  unfold importOnLoad.
  apply String.eqb_neq in Htext.
  step. rewrite Htext. step. rewrite Hparse. step.
  rewrite validateImportData_run. rewrite Hvalid.
  destruct (Api.importData api importData) as [result|e]; step; [|done].
  destruct (ImportResult.success result); step; [|done].
  assert (Hconfigs : ∀ s, fetchConfigs api s
                          = (Normal tt, stateOf (fetchConfigs api s), [CallGetConfigs])).
  { intros s. unfold fetchConfigs. step.
    by destruct (Api.getConfigs api). }
  destruct (ImportResult.stats result); step;
    rewrite (fetchData_eta api); step; rewrite Hconfigs; step;
    by rewrite !app_nil_r.
Qed.

(** X9. When storage refuses a valid document (it answers without success,
    or the request fails), the import makes no refresh: the store and the
    configuration are untouched, the dialog stays open, no result message
    appears, and the toast carries storage's error, or the default text
    when it gave none. *)
Theorem import_refused_by_storage
    (text : string) (importData : json) (message : string) (a : App.t) :
  text ≠ "" →
  JSON_parse text = Normal importData →
  isArray (getProperty importData "groups") = true →
  isArray (getProperty importData "sites") = true →
  isMapping (getProperty importData "configs") = true →
  (Api.importData api importData = Rejected message
   ∨ ∃ result,
       Api.importData api importData = Resolved result
       ∧ ImportResult.success result = false
       ∧ message = match ImportResult.error result with
                   | Some e => if String.eqb e "" then "匯入失敗" else e
                   | None => "匯入失敗"
                   end) →
  let r := handleImportData api JSON_parse (Some (FileLoaded (Some text))) a in
  traceOf r = [CallImportData importData]
  ∧ App.groups (stateOf r) = App.groups a
  ∧ App.configs (stateOf r) = App.configs a
  ∧ App.openImport (stateOf r) = App.openImport a
  ∧ App.importResultOpen (stateOf r) = App.importResultOpen a
  ∧ App.snackbarOpen (stateOf r) = true
  ∧ App.snackbarMessage (stateOf r) = "解析匯入數據失敗: " +:+ message.
Proof.
  intros Htext Hparse Hg Hs Hc Hrefused. cbn zeta.
  rewrite handleImportData_loaded.
  rewrite (importOnLoad_answer text importData); [|done..|].
  - destruct Hrefused as [->|(result & -> & -> & ->)]; done.
  - apply validateImportData_accepts. auto.
Qed.

(** X10. When storage accepts a valid document, the import shows the
    statistics summary if storage sent statistics, then refreshes the store
    and the configuration, in that order, and closes the dialog. *)
Theorem import_accepted_by_storage
    (text : string) (importData : json) (result : ImportResult.t) (a : App.t) :
  text ≠ "" →
  JSON_parse text = Normal importData →
  isArray (getProperty importData "groups") = true →
  isArray (getProperty importData "sites") = true →
  isMapping (getProperty importData "configs") = true →
  Api.importData api importData = Resolved result →
  ImportResult.success result = true →
  let r := handleImportData api JSON_parse (Some (FileLoaded (Some text))) a in
  (∃ refresh, traceOf r
              = CallImportData importData :: CallGetGroups :: refresh
                ++ [CallGetConfigs])
  ∧ App.openImport (stateOf r) = false
  ∧ App.importLoading (stateOf r) = false
  ∧ match ImportResult.stats result with
    | Some stats =>
        App.importResultOpen (stateOf r) = true
        ∧ App.importResultMessage (stateOf r) = importSummary stats
    | None =>
        App.importResultOpen (stateOf r) = App.importResultOpen a
        ∧ App.importResultMessage (stateOf r) = App.importResultMessage a
    end.
Proof.
  intros Htext Hparse Hg Hs Hc Hanswer Hsuccess. cbn zeta.
  rewrite handleImportData_loaded.
  rewrite (importOnLoad_answer text importData); [|done..|].
  2: { apply validateImportData_accepts. auto. }
  rewrite Hanswer, Hsuccess. cbn zeta.
  set (a1 := match ImportResult.stats result with Some _ => _ | None => _ end).
  assert (Hframe : ∀ s,
    App.importResultOpen (stateOf (fetchConfigs api (stateOf (fetchData api s))))
    = App.importResultOpen s
    ∧ App.importResultMessage (stateOf (fetchConfigs api (stateOf (fetchData api s))))
      = App.importResultMessage s).
  { intros s. rewrite fetchData_run. cbn zeta. unfold authStep, fetchConfigs. step.
    destruct (Api.getConfigs api), (Api.getGroups api) as [groupsData|e]; step;
      try destruct (promiseAll _ _) as [[[xs|e] ?] ?]; step;
      try destruct (includes "認證" e); done. }
  repeat split.
  - rewrite (fetchData_run api a1). cbn zeta.
    destruct (Api.getGroups api) as [groupsData|e].
    + destruct (promiseAll _ _) as [[c ?] t1]. by exists t1.
    + by exists [].
  - destruct (Hframe a1) as [Hopen Hmessage]. subst a1.
    destruct (ImportResult.stats result); cbn in *; by rewrite Hopen, Hmessage.
Qed.
End ImportMore.

Lemma import_requests_need_valid_file_witness :
  ∃ text importData rest,
    Some (FileLoaded (Some "{}")) = Some (FileLoaded (Some text))
    ∧ text ≠ ""
    ∧ parseAs payloadEmpty text = Normal importData
    ∧ isArray (getProperty importData "groups") = true
    ∧ isArray (getProperty importData "sites") = true
    ∧ (isMapping (getProperty importData "configs") = true
       ∨ isArray (getProperty importData "configs") = true)
    ∧ traceOf (handleImportData apiHealthy (parseAs payloadEmpty)
                 (Some (FileLoaded (Some "{}"))) (sampleApp SortMode.None None))
      = CallImportData importData :: rest.
Proof.
  apply (import_requests_need_valid_file apiHealthy (parseAs payloadEmpty)
           (Some (FileLoaded (Some "{}"))) (sampleApp SortMode.None None)).
  vm_compute. discriminate.
Defined.

Lemma import_refused_by_storage_witness :
  let r := handleImportData apiImportRefused (parseAs payloadEmpty)
             (Some (FileLoaded (Some "{}"))) (sampleApp SortMode.None None) in
  traceOf r = [CallImportData payloadEmpty]
  ∧ App.groups (stateOf r) = App.groups (sampleApp SortMode.None None)
  ∧ App.configs (stateOf r) = App.configs (sampleApp SortMode.None None)
  ∧ App.openImport (stateOf r) = App.openImport (sampleApp SortMode.None None)
  ∧ App.importResultOpen (stateOf r)
    = App.importResultOpen (sampleApp SortMode.None None)
  ∧ App.snackbarOpen (stateOf r) = true
  ∧ App.snackbarMessage (stateOf r) = "解析匯入數據失敗: " +:+ "quota exceeded".
Proof.
  apply (import_refused_by_storage apiImportRefused (parseAs payloadEmpty)
           "{}" payloadEmpty "quota exceeded" (sampleApp SortMode.None None));
    try reflexivity.
  - discriminate.
  - right. eexists. repeat split; reflexivity.
Defined.

Lemma import_accepted_by_storage_witness :
  let r := handleImportData apiImportCounted (parseAs payloadEmpty)
             (Some (FileLoaded (Some "{}"))) (sampleApp SortMode.None None) in
  App.openImport (stateOf r) = false ∧ App.importLoading (stateOf r) = false.
Proof.
  pose proof (import_accepted_by_storage apiImportCounted (parseAs payloadEmpty)
                "{}" payloadEmpty
                (ImportResult.mk true None
                   (Some (ImportStats.mk (GroupStats.mk 1 1 0)
                            (SiteStats.mk 1 1 0 0))))
                (sampleApp SortMode.None None)) as H.
  destruct H as (_ & H1 & H2 & _);
    [discriminate|reflexivity|reflexivity|reflexivity|reflexivity|reflexivity
    |reflexivity|].
  exact (conj H1 H2).
Defined.

(** ** Drags *)

Lemma toString_inj z1 z2 : toString z1 = toString z2 → z1 = z2.
Proof.
  unfold toString. intros H.
  assert (Hn : ∀ z, Z.to_int z ≠ Decimal.Pos Decimal.Nil
                    ∧ Z.to_int z ≠ Decimal.Neg Decimal.Nil).
  { intros [|p|p]; simpl; split; try discriminate;
      intros [= Hp]; by apply (Unsigned.to_uint_nonnil p). }
  apply (f_equal NilZero.int_of_string) in H.
  rewrite !NilZero.isi in H by apply Hn.
  injection H as H. by apply DecimalZ.to_int_inj.
Qed.

Section FindIndexFacts.
Context {A : Type}.
Implicit Types (l : list A) (p : A → bool).

Lemma findIndex_none p l :
  (∀ x, x ∈ l → p x = false) → findIndex p l = None.
Proof.
  induction l as [|x l IH]; intros H; simpl; [done|].
  rewrite (H x) by apply list_elem_of_here.
  rewrite IH; [done|]. intros y Hy. apply H. by apply list_elem_of_further.
Qed.

(** With distinct labels, the element labelled like the one at position [i]
    is found at [i]. *)
Lemma findIndex_unique (label : A → string) l i x :
  NoDup (label <$> l) → l !! i = Some x →
  findIndex (λ y, String.eqb (label y) (label x)) l = Some i.
Proof.
  revert i. induction l as [|y l IH]; intros i Hnodup Hi; [done|].
  rewrite fmap_cons in Hnodup. apply NoDup_cons in Hnodup as [Hy Hnodup].
  destruct i as [|i]; simpl in *.
  - injection Hi as ->. by rewrite String.eqb_refl.
  - destruct (String.eqb_spec (label y) (label x)) as [Heq|_].
    + exfalso. apply Hy. rewrite Heq.
      apply list_elem_of_fmap_2. by eapply list_elem_of_lookup_2.
    + by rewrite (IH i).
Qed.
End FindIndexFacts.

(** X11. A drag that was not dropped on an item, or whose dragged or target
    identifier belongs to no group, leaves the page exactly as it was. *)
Theorem drag_of_unknown_item_is_ignored (event : DragEndEvent.t) (a : App.t) :
  DragEndEvent.over event = None
  ∨ (∀ group, group ∈ App.groups a →
              toString (GroupWithSites.id group) ≠ DragEndEvent.active event)
  ∨ (∀ group, group ∈ App.groups a →
              Some (toString (GroupWithSites.id group)) ≠ DragEndEvent.over event) →
  handleDragEnd event a = a.
Proof.
  unfold handleDragEnd.
  destruct (DragEndEvent.over event) as [over|]; [|done].
  intros [?|[Hactive|Hover]]; [done| |]; destruct (negb _); try done.
  - rewrite findIndex_none; [done|].
    intros group Hin. apply String.eqb_neq. by apply Hactive.
  - rewrite (findIndex_none (λ group, String.eqb _ over)); [by destruct (findIndex _ _)|].
    intros group Hin. apply String.eqb_neq. intros Heq.
    apply (Hover group Hin). by rewrite Heq.
Qed.

Lemma drag_of_unknown_item_is_ignored_witness :
  handleDragEnd (DragEndEvent.mk "7" (Some "1")) (sampleApp SortMode.GroupSort None)
  = sampleApp SortMode.GroupSort None.
Proof.
  apply (drag_of_unknown_item_is_ignored (DragEndEvent.mk "7" (Some "1"))
           (sampleApp SortMode.GroupSort None)).
  right. left. intros group Hin.
  repeat (apply elem_of_cons in Hin as [->|Hin]; [discriminate|]).
  by apply elem_of_nil in Hin.
Defined.

(** X12. When the groups have distinct ids, dragging the group at position
    [i] onto the group at another position [j] performs exactly the move
    from [i] to [j]: the dragged group ends at position [j], the other
    groups keep their relative order, and nothing else on the page
    changes. *)
Theorem drag_moves_group
    (a : App.t) (i j : nat) (dragged target : GroupWithSites.t) :
  NoDup (GroupWithSites.id <$> App.groups a) →
  App.groups a !! i = Some dragged →
  App.groups a !! j = Some target →
  i ≠ j →
  let event := DragEndEvent.mk (toString (GroupWithSites.id dragged))
                 (Some (toString (GroupWithSites.id target))) in
  handleDragEnd event a = App.setGroups (arrayMove (App.groups a) i j) a
  ∧ App.groups (handleDragEnd event a) !! j = Some dragged
  ∧ delete j (App.groups (handleDragEnd event a)) = delete i (App.groups a).
Proof.
  intros Hnodup Hi Hj Hij event.
  assert (Hlabels : NoDup ((λ g, toString (GroupWithSites.id g)) <$> App.groups a)).
  { rewrite (list_fmap_compose GroupWithSites.id toString).
    apply NoDup_fmap_2; [|done]. intros ? ?. apply toString_inj. }
  assert (Hne : toString (GroupWithSites.id dragged)
                ≠ toString (GroupWithSites.id target)).
  { intros Heq%toString_inj. apply Hij.
    eapply NoDup_lookup; [exact Hnodup|..].
    - by rewrite list_lookup_fmap, Hi.
    - by rewrite list_lookup_fmap, Hj, Heq. }
  assert (Hevent : handleDragEnd event a
                   = App.setGroups (arrayMove (App.groups a) i j) a).
  { unfold handleDragEnd, event. cbn.
    apply String.eqb_neq in Hne. rewrite Hne. cbn.
    rewrite (findIndex_unique (λ g, toString (GroupWithSites.id g)) _ i dragged)
      by done.
    by rewrite (findIndex_unique (λ g, toString (GroupWithSites.id g)) _ j target)
      by done. }
  destruct (arrayMove_valid (App.groups a) i j) as (_ & Hat & Hrest & _).
  { by eapply lookup_lt_Some. }
  { by eapply lookup_lt_Some. }
  rewrite Hevent. cbn. by rewrite Hat, Hrest.
Qed.

Lemma drag_moves_group_witness :
  App.groups
    (handleDragEnd (DragEndEvent.mk (toString 1) (Some (toString 2)))
       (sampleApp SortMode.GroupSort None)) !! 1
  = Some groupDev.
Proof.
  pose proof (drag_moves_group (sampleApp SortMode.GroupSort None) 0 1
                groupDev groupDocs) as H.
  destruct H as (_ & H & _); [|reflexivity|reflexivity|lia|exact H].
  cbn. apply NoDup_cons. split.
  - intros Hin. apply list_elem_of_singleton in Hin. discriminate.
  - apply NoDup_singleton.
Defined.

(** X13. Whatever drags a group-sort session contains, the commit submits
    every group of the store exactly once: the ids in the payload are a
    rearrangement of the ids the store had before the drags, and the
    [order_num] values are pairwise distinct. *)
Theorem commit_after_drags_is_complete (events : list DragEndEvent.t) (a : App.t) :
  let groupOrders := groupOrdersOf (App.groups (dragAll events a)) in
  OrderItem.id <$> groupOrders
    ≡ₚ (λ group, Some (GroupWithSites.id group)) <$> App.groups a
  ∧ length groupOrders = length (App.groups a)
  ∧ NoDup (OrderItem.order_num <$> groupOrders).
Proof.
  cbn zeta. pose proof (dragAll_perm events a) as Hperm.
  unfold groupOrdersOf. repeat split.
  - rewrite fmap_imap.
    transitivity ((λ group, Some (GroupWithSites.id group))
                  <$> App.groups (dragAll events a)); [|by rewrite Hperm].
    by rewrite <- imap_const.
  - rewrite length_imap. by rewrite Hperm.
  - rewrite fmap_imap. cbn.
    rewrite (imap_seq_0 _ Z.of_nat).
    apply NoDup_fmap_2; [apply _|]. apply NoDup_seq.
Qed.

(** ** Starting and leaving a sort *)

(** X14. Starting a sort from Idle and cancelling it at once gives back the
    page state exactly, for the group sort and for the site sort of any
    group. *)
Theorem start_then_cancel_restores (a : App.t) (groupId : Z) :
  App.sortMode a = SortMode.None →
  App.currentSortingGroupId a = None →
  cancelSort (startGroupSort a) = a
  ∧ cancelSort (startSiteSort groupId a) = a.
Proof.
  destruct a; cbn. by intros -> ->.
Qed.

Lemma start_then_cancel_restores_witness :
  cancelSort (startGroupSort (sampleApp SortMode.None None))
  = sampleApp SortMode.None None
  ∧ cancelSort (startSiteSort 1 (sampleApp SortMode.None None))
    = sampleApp SortMode.None None.
Proof.
  apply (start_then_cancel_restores (sampleApp SortMode.None None) 1);
    reflexivity.
Defined.

(** X15. On a group with at least two sites, the sort button of an Idle
    page starts the site sort of that group: the card is expanded and shows
    its own buffer with the save button, no warning appears, the header
    offers only cancel, and the card of every other group shows no button. *)
Theorem sort_click_starts_site_sort
    (a : App.t) (group : GroupWithSites.t) (c : GroupCard.t) :
  2 ≤ length (GroupWithSites.sites group) →
  App.sortMode a = SortMode.None →
  let '(a', c') := clickSort group (a, c) in
  a' = startSiteSort (GroupWithSites.id group) a
  ∧ GroupCard.isCollapsed c' = false
  ∧ GroupCard.sites c' = GroupCard.sites c
  ∧ GroupCard.snackbarOpen c' = GroupCard.snackbarOpen c
  ∧ cardToolbar (groupCardProps a' group) = [SaveOrderButton]
  ∧ sitesToRender (groupCardProps a' group) c' = GroupCard.sites c
  ∧ appToolbar a' = [CancelEditButton]
  ∧ ∀ other, GroupWithSites.id other ≠ GroupWithSites.id group →
             cardToolbar (groupCardProps a' other) = [].
Proof.
  intros Hlen Hmode. unfold clickSort, handleSortClick.
  cbn [GroupCardProps.group groupCardProps].
  rewrite (proj2 (Nat.ltb_ge _ _) Hlen).
  assert (Hself : isCurrentEditingGroup
                    (groupCardProps (startSiteSort (GroupWithSites.id group) a) group)
                  = true).
  { unfold isCurrentEditingGroup. cbn. by rewrite bool_decide_eq_true_2. }
  repeat split.
  - by destruct (GroupCard.isCollapsed c) eqn:E.
  - by destruct (GroupCard.isCollapsed c).
  - by destruct (GroupCard.isCollapsed c).
  - unfold cardToolbar. by rewrite Hself.
  - unfold sitesToRender. rewrite Hself. by destruct (GroupCard.isCollapsed c).
  - intros other Hother. unfold cardToolbar, isCurrentEditingGroup. cbn.
    rewrite bool_decide_eq_false_2; [done|]. intros [= Heq]. congruence.
Qed.

Lemma sort_click_starts_site_sort_witness :
  let '(a', c') := clickSort groupDev
                     (sampleApp SortMode.None None, GroupCard.mount groupDev true) in
  a' = startSiteSort 1 (sampleApp SortMode.None None)
  ∧ GroupCard.isCollapsed c' = false.
Proof.
  pose proof (sort_click_starts_site_sort (sampleApp SortMode.None None) groupDev
                (GroupCard.mount groupDev true)) as H.
  cbv zeta in H.
  destruct (clickSort groupDev _) as [a' c'].
  destruct H as (H1 & H2 & _); [simpl; lia|reflexivity|].
  exact (conj H1 H2).
Defined.

(** The session is all a site drag reads besides the buffer. *)
Lemma clickSort_sites group a c :
  GroupCard.sites (clickSort group (a, c)).2 = GroupCard.sites c.
Proof.
  unfold clickSort, handleSortClick. cbn [GroupCardProps.group groupCardProps].
  destruct (_ <? 2); [done|]. by destruct (GroupCard.isCollapsed c).
Qed.

(** X16. The card's buffer outlives a cancelled site sort.  After a site
    sort of a group was started, dragged and cancelled, starting the sort of
    that group again shows the dragged order, and its save button would
    submit that order; the store's own order is only shown while no sort of
    the group is on. *)
Theorem cancelled_site_drags_come_back
    (a : App.t) (group : GroupWithSites.t) (c : GroupCard.t)
    (events : list DragEndEvent.t) :
  2 ≤ length (GroupWithSites.sites group) →
  App.sortMode a = SortMode.None →
  let first := clickSort group (a, c) in
  let dragged := siteDragAll events first.2 in
  let cancelled := cancelSort first.1 in
  let again := clickSort group (cancelled, dragged) in
  sitesToRender (groupCardProps cancelled group) dragged
  = GroupWithSites.sites group
  ∧ sitesToRender (groupCardProps again.1 group) again.2 = GroupCard.sites dragged
  ∧ cardHandleSaveSiteOrder (groupCardProps again.1 group) again.2
    = (GroupWithSites.id group, GroupCard.sites dragged).
Proof.
  intros Hlen Hmode. cbn zeta.
  set (first := clickSort group (a, c)).
  set (dragged := siteDragAll events first.2).
  assert (Hagain : clickSort group (cancelSort first.1, dragged)
                   = (startSiteSort (GroupWithSites.id group) (cancelSort first.1),
                      (clickSort group (cancelSort first.1, dragged)).2)).
  { unfold clickSort, handleSortClick. cbn [GroupCardProps.group groupCardProps].
    by rewrite (proj2 (Nat.ltb_ge _ _) Hlen). }
  repeat split.
  - rewrite Hagain. unfold sitesToRender, isCurrentEditingGroup. cbn.
    rewrite bool_decide_eq_true_2 by done. apply clickSort_sites.
  - rewrite Hagain. unfold cardHandleSaveSiteOrder. cbn. f_equal.
    apply clickSort_sites.
Qed.

Lemma cancelled_site_drags_come_back_witness :
  let first := clickSort groupDev
                 (sampleApp SortMode.None None, GroupCard.mount groupDev false) in
  let dragged := siteDragAll [dragRepoOntoWiki] first.2 in
  let again := clickSort groupDev (cancelSort first.1, dragged) in
  sitesToRender (groupCardProps again.1 groupDev) again.2 = GroupCard.sites dragged.
Proof.
  pose proof (cancelled_site_drags_come_back (sampleApp SortMode.None None)
                groupDev (GroupCard.mount groupDev false) [dragRepoOntoWiki]) as H.
  destruct H as (_ & H & _); [simpl; lia|reflexivity|exact H].
Defined.

(** ** Theme *)

(** X17. The theme switch persists: the value it writes to local storage
    makes the next start come up in the mode just chosen, whatever the
    system preference, and switching twice returns to the first mode. *)
Theorem theme_toggle_round_trip (darkMode prefersDark : bool) :
  initialDarkMode (Some (toggleTheme darkMode).2) prefersDark
  = (toggleTheme darkMode).1
  ∧ (toggleTheme (toggleTheme darkMode).1).1 = darkMode.
Proof. by destruct darkMode. Qed.

(** ** The draft of a new site *)

Lemma mathMax_bound x xs y : y ∈ x :: xs → (y ≤ mathMax x xs)%Z.
Proof.
  unfold mathMax. induction xs as [|z xs IH]; simpl.
  - intros ->%list_elem_of_singleton. lia.
  - intros [->|[->|Hy]%elem_of_cons]%elem_of_cons.
    + etrans; [apply IH, list_elem_of_here|]. lia.
    + lia.
    + etrans; [apply IH; by apply list_elem_of_further|]. lia.
Qed.

Lemma mathMax_elem x xs : mathMax x xs ∈ x :: xs.
Proof.
  unfold mathMax. induction xs as [|z xs IH]; simpl.
  - apply list_elem_of_here.
  - destruct (Z.max_spec z (foldr Z.max x xs)) as [[_ ->]|[_ ->]].
    + apply elem_of_cons in IH as [->|IH].
      * apply list_elem_of_here.
      * by do 2 apply list_elem_of_further.
    + apply list_elem_of_further, list_elem_of_here.
Qed.

Lemma roundToDouble_exact z :
  (Z.abs z ≤ 2 ^ 53)%Z → roundToDouble z = z.
Proof.
  intros Hz. unfold roundToDouble. cbn zeta.
  by rewrite (proj2 (Z.leb_le _ _) Hz).
Qed.

(** X18. While the [order_num] values of the store are safe integers, the
    form for a new site opens with an empty draft in the chosen group whose
    [order_num] is larger than that of every site the group has, so the new
    site sorts last; it is 0 when the group has no site or is not in the
    store. *)
Theorem new_site_sorts_last (groupId : Z) (p : Page.t) :
  Forall (λ group,
            Forall (λ site, isSafeInteger (Site.order_num site) = true)
                   (GroupWithSites.sites group))
         (App.groups (Page.app p)) →
  let draft := Page.newSite (handleOpenAddSite groupId p) in
  Page.openAddSite (handleOpenAddSite groupId p) = true
  ∧ Site.group_id draft = groupId
  ∧ Site.name draft = "" ∧ Site.url draft = "" ∧ Site.id draft = None
  ∧ match List.find (λ g, (GroupWithSites.id g =? groupId)%Z)
                    (App.groups (Page.app p)) with
    | Some group =>
        Forall (λ site, (Site.order_num site < Site.order_num draft)%Z)
               (GroupWithSites.sites group)
        ∧ match GroupWithSites.sites group with
          | [] => Site.order_num draft = 0%Z
          | _ :: _ => True
          end
    | None => Site.order_num draft = 0%Z
    end.
Proof.
  intros Hsafe. cbn zeta. unfold handleOpenAddSite, maxOrderNum. cbn.
  destruct (List.find _ _) as [group|] eqn:Hfind; [|done].
  apply find_some in Hfind as [Hgroup%list_elem_of_In _].
  rewrite Forall_forall in Hsafe. specialize (Hsafe group Hgroup).
  rewrite Forall_forall in Hsafe.
  repeat split;
    destruct (GroupWithSites.sites group) as [|site sites] eqn:Hsites; try done.
  cbn.
  pose proof (mathMax_elem (Site.order_num site) (Site.order_num <$> sites))
    as Hmax.
  rewrite <- fmap_cons in Hmax.
  apply list_elem_of_fmap in Hmax as (top & Htop & Hin).
  pose proof (Hsafe top Hin) as Hbound. unfold isSafeInteger in Hbound.
  apply Z.ltb_lt in Hbound. rewrite <- Htop in Hbound.
  rewrite roundToDouble_exact by lia.
  apply Forall_forall. intros s Hs.
  pose proof (mathMax_bound (Site.order_num site) (Site.order_num <$> sites)
                (Site.order_num s)) as Hb.
  rewrite <- fmap_cons in Hb.
  specialize (Hb (list_elem_of_fmap_2 _ _ _ Hs)). lia.
Qed.

Lemma new_site_sorts_last_witness :
  Forall (λ site,
            (Site.order_num site
             < Site.order_num (Page.newSite (handleOpenAddSite 1 samplePage)))%Z)
         [siteRepo; siteWiki].
Proof.
  pose proof (new_site_sorts_last 1 samplePage) as H.
  destruct H as (_ & _ & _ & _ & _ & H & _); [|exact H].
  repeat constructor.
Defined.

(** Past the safe integers the sum is rounded: beside a site at [2 ^ 53]
    the draft gets [2 ^ 53] again, and does not sort after it. *)
Lemma new_site_at_precision_limit :
  maxOrderNum
    [GroupWithSites.mk 1 "Dev" 0
       [Site.mk (Some 1%Z) 1 "Repo" "https://git.example/repo" None None None
          (2 ^ 53)]] 1
  = (2 ^ 53)%Z.
Proof. reflexivity. Qed.

(** ** Adding, editing and deleting *)

Ltac stepP :=
  unfold mbind, mret, P_bind, P_ret, bindP, retP, setP, getP, awaitP, throwP,
    tryCatchP, liftApp, M_bind, M_ret, bind, ret, get, set, await, throw,
    tryCatch, tryFinally, handleError;
  cbn -[fetchData fetchConfigs groupOrdersOf siteOrdersOf promiseAll
        DEFAULT_CONFIGS].

Section PageFacts.
Variable api : Api.t.
Variable apiWrite : ApiWrite.t.

Lemma liftApp_fetchData p :
  liftApp (fetchData api) p = (Normal tt, refreshed api p, refreshRequests api p).
Proof.
  unfold liftApp, refreshed, refreshRequests.
  by rewrite (fetchData_eta api (Page.app p)).
Qed.

Lemma handleCreateGroup_run p :
  handleCreateGroup api apiWrite p
  = let newGroup := Page.newGroup p in
    if String.eqb (Group.name newGroup) "" then
      (Normal tt, toastOn "分組名稱不能為空" p, [])
    else
      match ApiWrite.createGroup apiWrite newGroup with
      | Resolved _ =>
          (Normal tt,
           Page.setNewGroup (emptyGroupDraft 0)
             (handleCloseAddGroup (refreshed api p)),
           CallCreateGroup newGroup :: refreshRequests api p)
      | Rejected message =>
          (Normal tt, toastOn ("建立分組失敗: " +:+ message) p,
           [CallCreateGroup newGroup])
      end.
Proof.
  unfold handleCreateGroup. stepP.
  destruct (String.eqb _ ""); stepP; [done|].
  destruct (ApiWrite.createGroup apiWrite _); stepP; [|done].
  fold (liftApp (fetchData api) p). rewrite liftApp_fetchData.
  by rewrite !app_nil_r.
Qed.

(** X19. Creating a group.  With an empty name nothing is sent: the toast
    asks for a name and the dialog keeps its draft.  When storage rejects
    the creation there is no refresh, the toast carries the reason and the
    dialog stays open with the draft, ready to be sent again.  When storage
    accepts it the store is refreshed, the dialog closes and the draft is
    reset. *)
Theorem create_group_outcome (p : Page.t) :
  let r := handleCreateGroup api apiWrite p in
  let newGroup := Page.newGroup p in
  if String.eqb (Group.name newGroup) "" then
    requestsOf r = []
    ∧ pageOf r = toastOn "分組名稱不能為空" p
  else
    match ApiWrite.createGroup apiWrite newGroup with
    | Resolved _ =>
        requestsOf r = CallCreateGroup newGroup :: refreshRequests api p
        ∧ Page.app (pageOf r) = stateOf (fetchData api (Page.app p))
        ∧ Page.openAddGroup (pageOf r) = false
        ∧ Page.newGroup (pageOf r) = emptyGroupDraft 0
    | Rejected message =>
        requestsOf r = [CallCreateGroup newGroup]
        ∧ pageOf r = toastOn ("建立分組失敗: " +:+ message) p
        ∧ App.groups (Page.app (pageOf r)) = App.groups (Page.app p)
        ∧ Page.openAddGroup (pageOf r) = Page.openAddGroup p
        ∧ Page.newGroup (pageOf r) = newGroup
    end.
Proof.
  cbn zeta. rewrite handleCreateGroup_run. cbn zeta.
  destruct (String.eqb _ ""); [done|].
  by destruct (ApiWrite.createGroup apiWrite _).
Qed.

Lemma handleCreateSite_run p :
  handleCreateSite api apiWrite p
  = let newSite := Page.newSite p in
    if String.eqb (Site.name newSite) "" || String.eqb (Site.url newSite) "" then
      (Normal tt, toastOn "站點名稱和URL不能為空" p, [])
    else
      match ApiWrite.createSite apiWrite newSite with
      | Resolved _ =>
          (Normal tt, handleCloseAddSite (refreshed api p),
           CallCreateSite newSite :: refreshRequests api p)
      | Rejected message =>
          (Normal tt, toastOn ("建立站點失敗: " +:+ message) p,
           [CallCreateSite newSite])
      end.
Proof.
  unfold handleCreateSite. stepP.
  destruct (_ || _); stepP; [done|].
  destruct (ApiWrite.createSite apiWrite _); stepP; [|done].
  fold (liftApp (fetchData api) p). rewrite liftApp_fetchData.
  by rewrite !app_nil_r.
Qed.

(** X20. Creating a site.  When the name or the url is empty nothing is
    sent and the toast says so.  Otherwise the draft is sent as it is;
    accepted, the store is refreshed and the dialog closes, keeping the
    draft; rejected, there is no refresh, the toast carries the reason and
    the dialog stays as it was. *)
Theorem create_site_outcome (p : Page.t) :
  let r := handleCreateSite api apiWrite p in
  let newSite := Page.newSite p in
  if String.eqb (Site.name newSite) "" || String.eqb (Site.url newSite) "" then
    requestsOf r = []
    ∧ pageOf r = toastOn "站點名稱和URL不能為空" p
  else
    match ApiWrite.createSite apiWrite newSite with
    | Resolved _ =>
        requestsOf r = CallCreateSite newSite :: refreshRequests api p
        ∧ Page.app (pageOf r) = stateOf (fetchData api (Page.app p))
        ∧ Page.openAddSite (pageOf r) = false
        ∧ Page.newSite (pageOf r) = newSite
    | Rejected message =>
        requestsOf r = [CallCreateSite newSite]
        ∧ pageOf r = toastOn ("建立站點失敗: " +:+ message) p
        ∧ Page.openAddSite (pageOf r) = Page.openAddSite p
    end.
Proof.
  cbn zeta. rewrite handleCreateSite_run. cbn zeta.
  destruct (_ || _); [done|].
  by destruct (ApiWrite.createSite apiWrite _).
Qed.

(** X21. Updating.  A site without [id], or with [id] 0, and a group with
    [id] 0 are dropped silently: no request, no toast, no change.  Otherwise
    the update is sent; whatever storage answers, [true] or [false], the
    store is refreshed and no error is shown by the handler; only a failed
    request shows the toast, and then there is no refresh. *)
Theorem update_outcome
    (updatedSite : Site.t) (updatedGroup : GroupWithSites.t) (p : Page.t) :
  (let r := handleSiteUpdate api apiWrite updatedSite p in
   match truthyId (Site.id updatedSite) with
   | None => r = (Normal tt, p, [])
   | Some id =>
       match ApiWrite.updateSite apiWrite id updatedSite with
       | Resolved _ =>
           r = (Normal tt, refreshed api p,
                CallUpdateSite id updatedSite :: refreshRequests api p)
       | Rejected message =>
           r = (Normal tt, toastOn ("更新站點失敗: " +:+ message) p,
                [CallUpdateSite id updatedSite])
       end
   end)
  ∧
  (let r := handleGroupUpdate api apiWrite updatedGroup p in
   let id := GroupWithSites.id updatedGroup in
   if (id =? 0)%Z then r = (Normal tt, p, [])
   else
     match ApiWrite.updateGroup apiWrite id updatedGroup with
     | Resolved _ =>
         r = (Normal tt, refreshed api p,
              CallUpdateGroup id updatedGroup :: refreshRequests api p)
     | Rejected message =>
         r = (Normal tt, toastOn ("更新分組失敗: " +:+ message) p,
              [CallUpdateGroup id updatedGroup])
     end).
Proof.
  split; cbn zeta.
  - unfold handleSiteUpdate. destruct (truthyId _) as [id|]; stepP; [|done].
    destruct (ApiWrite.updateSite apiWrite id updatedSite); stepP; [|done].
    fold (liftApp (fetchData api) p). by rewrite liftApp_fetchData.
  - unfold handleGroupUpdate. destruct (_ =? 0)%Z; stepP; [done|].
    destruct (ApiWrite.updateGroup apiWrite _ _); stepP; [|done].
    fold (liftApp (fetchData api) p). by rewrite liftApp_fetchData.
Qed.

(** X22. Deleting a site or a group sends the deletion for exactly the
    given id.  Whatever storage answers, [true] or [false], the store is
    refreshed and the handler shows no error; a failed request shows the
    toast and makes no refresh, so the store keeps the entity. *)
Theorem delete_outcome (siteId groupId : Z) (p : Page.t) :
  (let r := handleSiteDelete api apiWrite siteId p in
   match ApiWrite.deleteSite apiWrite siteId with
   | Resolved _ =>
       r = (Normal tt, refreshed api p,
            CallDeleteSite siteId :: refreshRequests api p)
   | Rejected message =>
       r = (Normal tt, toastOn ("刪除站點失敗: " +:+ message) p,
            [CallDeleteSite siteId])
       ∧ App.groups (Page.app (pageOf r)) = App.groups (Page.app p)
   end)
  ∧
  (let r := handleGroupDelete api apiWrite groupId p in
   match ApiWrite.deleteGroup apiWrite groupId with
   | Resolved _ =>
       r = (Normal tt, refreshed api p,
            CallDeleteGroup groupId :: refreshRequests api p)
   | Rejected message =>
       r = (Normal tt, toastOn ("刪除分組失敗: " +:+ message) p,
            [CallDeleteGroup groupId])
       ∧ App.groups (Page.app (pageOf r)) = App.groups (Page.app p)
   end).
Proof.
  split; cbn zeta.
  - unfold handleSiteDelete. stepP.
    destruct (ApiWrite.deleteSite apiWrite siteId); stepP; [|done].
    fold (liftApp (fetchData api) p). by rewrite liftApp_fetchData.
  - unfold handleGroupDelete. stepP.
    destruct (ApiWrite.deleteGroup apiWrite groupId); stepP; [|done].
    fold (liftApp (fetchData api) p). by rewrite liftApp_fetchData.
Qed.
End PageFacts.

(** ** Saving the configuration *)

Section ConfigFacts.
Variable api : Api.t.
Variable apiWrite : ApiWrite.t.

(** The loop sends the changed pairs in order and stops at the first failed
    request; it never changes the page. *)
Lemma saveEntries_run configs entries p :
  (Forall (λ entry, ∃ b, ApiWrite.setConfig apiWrite entry.1 entry.2 = Resolved b)
          (changedEntries configs entries)
   ∧ saveEntries apiWrite configs entries p
     = (Normal tt, p, setConfigCall <$> changedEntries configs entries))
  ∨ ∃ message before entry after,
      changedEntries configs entries = before ++ entry :: after
      ∧ Forall (λ entry, ∃ b, ApiWrite.setConfig apiWrite entry.1 entry.2
                              = Resolved b) before
      ∧ ApiWrite.setConfig apiWrite entry.1 entry.2 = Rejected message
      ∧ saveEntries apiWrite configs entries p
        = (Throw message, p, setConfigCall <$> (before ++ [entry])).
Proof.
  induction entries as [|[key value] entries IH].
  - left. by split.
  - cbn [saveEntries changedEntries List.filter fst snd].
    destruct (bool_decide (configs !! key = Some value)) eqn:Hsame; cbn [negb].
    + stepP.
      destruct IH as [(Hall & ->)|(message & before & entry & after
                                   & Hsplit & Hall & Hrej & ->)];
        [left|right]; [done|].
      by exists message, before, entry, after.
    + destruct (ApiWrite.setConfig apiWrite key value) as [b|message] eqn:Hset.
      * stepP.
        destruct IH as [(Hall & ->)|(message & before & entry & after
                                     & Hsplit & Hall & Hrej & ->)];
          [left|right].
        -- split; [|done]. apply Forall_cons. split; [by exists b|done].
        -- exists message, ((key, value) :: before), entry, after.
           fold (changedEntries configs entries). rewrite Hsplit.
           repeat split; [|done].
           apply Forall_cons. split; [by exists b|done].
      * right. exists message, [], (key, value), (changedEntries configs entries).
        stepP. by repeat split.
Qed.

(** X23. Saving the configuration sends only pairs that differ from the
    shown configuration, in the order of the entries, and stops at the first
    failed request.  When storage answers every changed pair, all of them
    are sent, the shown configuration becomes the edited one, the dialog
    closes and no toast appears.  When storage rejects one, the pairs before
    the first rejected one and that one are sent and no other; the shown
    configuration and the dialog stay as they were and the toast carries the
    reason of that rejection. *)
Theorem save_config_outcome (entries : list (string * string)) (p : Page.t) :
  let r := handleSaveConfig apiWrite entries p in
  let changed := changedEntries (App.configs (Page.app p)) entries in
  let answered := λ entry : string * string,
    ∃ b, ApiWrite.setConfig apiWrite entry.1 entry.2 = Resolved b in
  (Forall answered changed
   ∧ requestsOf r = setConfigCall <$> changed
   ∧ App.configs (Page.app (pageOf r)) = App.tempConfigs (Page.app p)
   ∧ Page.openConfig (pageOf r) = false
   ∧ App.snackbarOpen (Page.app (pageOf r)) = App.snackbarOpen (Page.app p)
   ∧ App.snackbarMessage (Page.app (pageOf r))
     = App.snackbarMessage (Page.app p))
  ∨ ∃ message before entry after,
      changed = before ++ entry :: after
      ∧ Forall answered before
      ∧ ApiWrite.setConfig apiWrite entry.1 entry.2 = Rejected message
      ∧ requestsOf r = setConfigCall <$> (before ++ [entry])
      ∧ pageOf r = toastOn ("儲存配置失敗: " +:+ message) p
      ∧ App.configs (Page.app (pageOf r)) = App.configs (Page.app p)
      ∧ Page.openConfig (pageOf r) = Page.openConfig p.
Proof.
  cbn zeta. unfold handleSaveConfig.
  destruct (saveEntries_run (App.configs (Page.app p)) entries p)
    as [(Hall & Hrun)|(message & before & entry & after
                       & Hsplit & Hall & Hrej & Hrun)];
    [left|right; exists message, before, entry, after];
    stepP; rewrite Hrun; stepP.
  - split; [done|]. split; [by rewrite !app_nil_r|]. by destruct p.
  - repeat split; try done. by rewrite !app_nil_r.
Qed.

Lemma saveEntries_resolved configs entries p :
  Forall (λ entry, ∃ b, ApiWrite.setConfig apiWrite entry.1 entry.2 = Resolved b)
         (changedEntries configs entries) →
  saveEntries apiWrite configs entries p
  = (Normal tt, p, setConfigCall <$> changedEntries configs entries).
Proof.
  intros Hall.
  destruct (saveEntries_run configs entries p)
    as [(_ & Hrun)|(message & before & entry & after & Hsplit & _ & Hrej & _)];
    [done|].
  rewrite Forall_forall in Hall. destruct (Hall entry) as [b Hb].
  - rewrite Hsplit. apply elem_of_app. right. apply list_elem_of_here.
  - congruence.
Qed.

Lemma filter_all_false {A} (f : A → bool) (l : list A) :
  (∀ x, x ∈ l → f x = false) → List.filter f l = [].
Proof.
  induction l as [|y l IH]; intros H; simpl; [done|].
  rewrite (H y) by apply list_elem_of_here.
  apply IH. intros x Hx. apply H. by apply list_elem_of_further.
Qed.

Lemma filter_only {A} (f : A → bool) (l : list A) x0 :
  NoDup l → x0 ∈ l → f x0 = true →
  (∀ x, x ∈ l → x ≠ x0 → f x = false) →
  List.filter f l = [x0].
Proof.
  induction l as [|y l IH]; intros Hnodup Hin Hx0 Hother; [by apply elem_of_nil in Hin|].
  apply NoDup_cons in Hnodup as [Hy Hnodup]. simpl.
  apply elem_of_cons in Hin as [<-|Hin].
  - rewrite Hx0. f_equal. apply filter_all_false.
    intros x Hx. apply Hother; [by apply list_elem_of_further|].
    intros ->. done.
  - rewrite (Hother y); [|apply list_elem_of_here|by intros ->].
    apply IH; [done..|].
    intros x Hx. apply Hother. by apply list_elem_of_further.
Qed.

(** X24. Opening the configuration dialog, changing one field and saving
    sends exactly one request, for that field, and none when the value typed
    is the one already shown; afterwards the shown configuration holds the
    new value under that key and is otherwise as before, and the dialog is
    closed. *)
Theorem edit_one_config_field
    (p : Page.t) (name value : string) (entries : list (string * string)) (b : bool) :
  let edited := handleConfigInputChange name value (handleOpenConfig p) in
  entries ≡ₚ map_to_list (App.tempConfigs (Page.app edited)) →
  ApiWrite.setConfig apiWrite name value = Resolved b →
  let r := handleSaveConfig apiWrite entries edited in
  requestsOf r
  = (if bool_decide (App.configs (Page.app p) !! name = Some value)
     then [] else [CallSetConfig name value])
  ∧ App.configs (Page.app (pageOf r)) = <[name := value]> (App.configs (Page.app p))
  ∧ Page.openConfig (pageOf r) = false.
Proof.
  intros edited Hentries Hset. cbn zeta.
  set (configs := App.configs (Page.app p)) in *.
  assert (Htemp : App.tempConfigs (Page.app edited) = <[name := value]> configs)
    by done.
  assert (Hconfigs : App.configs (Page.app edited) = configs) by done.
  rewrite Htemp in Hentries.
  assert (Hin : ∀ k v, (k, v) ∈ entries ↔ <[name := value]> configs !! k = Some v).
  { intros k v. rewrite Hentries. apply elem_of_map_to_list. }
  assert (Hnodup : NoDup entries).
  { rewrite Hentries. apply NoDup_map_to_list. }
  assert (Hchanged : changedEntries configs entries
                     = if bool_decide (configs !! name = Some value)
                       then [] else [(name, value)]).
  { unfold changedEntries. case_bool_decide as Hsame.
    - apply filter_all_false. intros [k v] Hkv%Hin. cbn.
      apply negb_false_iff, bool_decide_eq_true.
      destruct (decide (k = name)) as [->|Hne].
      + rewrite lookup_insert_eq in Hkv. congruence.
      + by rewrite lookup_insert_ne in Hkv.
    - apply filter_only; [done| | |].
      + apply Hin. by rewrite lookup_insert_eq.
      + cbn. by apply negb_true_iff, bool_decide_eq_false.
      + intros [k v] Hkv%Hin Hne. cbn.
        apply negb_false_iff, bool_decide_eq_true.
        destruct (decide (k = name)) as [->|Hk].
        * rewrite lookup_insert_eq in Hkv. congruence.
        * by rewrite lookup_insert_ne in Hkv. }
  clearbody edited. unfold handleSaveConfig. stepP.
  rewrite Hconfigs.
  rewrite saveEntries_resolved.
  - rewrite Hchanged. stepP. rewrite Htemp.
    split; [by case_bool_decide|done].
  - rewrite Hchanged. case_bool_decide; [done|].
    apply Forall_singleton. by exists b.
Qed.
End ConfigFacts.

Lemma edit_one_config_field_witness :
  let edited := handleConfigInputChange "site.title" "Links"
                  (handleOpenConfig samplePage) in
  let r := handleSaveConfig apiWriteOk
             (map_to_list (App.tempConfigs (Page.app edited))) edited in
  requestsOf r
  = (if bool_decide (App.configs (Page.app samplePage) !! "site.title"
                     = Some "Links")
     then [] else [CallSetConfig "site.title" "Links"])
  ∧ App.configs (Page.app (pageOf r))
    = <["site.title" := "Links"]> (App.configs (Page.app samplePage))
  ∧ Page.openConfig (pageOf r) = false.
Proof.
  apply (edit_one_config_field apiWriteOk samplePage "site.title" "Links"
           (map_to_list
              (App.tempConfigs
                 (Page.app (handleConfigInputChange "site.title" "Links"
                              (handleOpenConfig samplePage)))))
           true); reflexivity.
Defined.

(** ** The group edit dialog *)

Section DialogFacts.
Variable trim : string → string.
Variable api : Api.t.
Variable apiWrite : ApiWrite.t.

(** X25. Deleting a group takes two clicks.  In a dialog that was just
    opened the first click on delete sends nothing and only shows the
    confirmation; the click that follows sends the deletion of that group's
    id and closes the dialog on the card.  No click deletes while the
    confirmation is not showing, and reopening the dialog withdraws it. *)
Theorem group_delete_needs_confirmation
    (group : GroupWithSites.t) (d : EditGroupDialog.t) (p : Page.t) (c : GroupCard.t) :
  let opened := dialogEffect (Some group) d in
  let first := clickDialogDelete api apiWrite group opened p c in
  let second := clickDialogDelete api apiWrite group first.2 p c in
  first.1 = ((Normal tt, p, []), c)
  ∧ EditGroupDialog.showDeleteConfirm first.2 = true
  ∧ EditGroupDialog.showDeleteConfirm (dialogEffect (Some group) first.2) = false
  ∧ second.1.1 = handleGroupDelete api apiWrite (GroupWithSites.id group) p
  ∧ (∃ rest, requestsOf second.1.1
             = CallDeleteGroup (GroupWithSites.id group) :: rest)
  ∧ GroupCard.editDialogOpen second.1.2 = false
  ∧ ∀ d', EditGroupDialog.showDeleteConfirm d' = false →
          (clickDialogDelete api apiWrite group d' p c).1 = ((Normal tt, p, []), c).
Proof.
  cbn zeta. repeat split.
  - unfold clickDialogDelete, handleGroupDelete. stepP.
    destruct (ApiWrite.deleteGroup apiWrite _); stepP; [|eauto].
    destruct (fetchData api _) as [[[] ?] ?]; eauto.
  - intros d' Hd'. unfold clickDialogDelete, dialogHandleDelete. by rewrite Hd'.
Qed.

(** X26. Renaming a group.  When the text is empty after trimming, the
    save button does nothing: no request, and the dialog stays open.
    Otherwise the card closes the dialog and the update is sent under the
    group's id with the trimmed text as the name and the group's
    [order_num] and sites as they were; a group whose id is 0 is dropped
    without a request. *)
Theorem group_rename_outcome
    (group : GroupWithSites.t) (d : EditGroupDialog.t) (p : Page.t) (c : GroupCard.t) :
  let r := clickDialogSave trim api apiWrite group d p c in
  let name := trim (EditGroupDialog.name d) in
  let renamed := GroupWithSites.mk (GroupWithSites.id group) name
                   (GroupWithSites.order_num group) (GroupWithSites.sites group) in
  if String.eqb name "" then r = ((Normal tt, p, []), c)
  else
    GroupCard.editDialogOpen r.2 = false
    ∧ GroupCard.sites r.2 = GroupCard.sites c
    ∧ if (GroupWithSites.id group =? 0)%Z then r.1 = (Normal tt, p, [])
      else ∃ rest, requestsOf r.1
                   = CallUpdateGroup (GroupWithSites.id group) renamed :: rest.
Proof.
  cbn zeta. unfold clickDialogSave, dialogHandleSave.
  destruct (String.eqb _ ""); [done|]. cbn. repeat split.
  unfold handleGroupUpdate. cbn.
  destruct (GroupWithSites.id group =? 0)%Z; stepP; [done|].
  destruct (ApiWrite.updateGroup apiWrite _ _); stepP; [|eauto].
  destruct (fetchData api _) as [[[] ?] ?]; eauto.
Qed.
End DialogFacts.

(** ** More on the format checks, site drags and the group draft *)

(** X27. The format checks of the import accept a document exactly when
    its [groups] and [sites] are arrays and its [configs] is an object or an
    array; they send nothing and change nothing, whatever the verdict. *)
Theorem import_checks_accept_exactly (importData : json) (a : App.t) :
  (completionOf (validateImportData importData a) = Normal tt
   ↔ isArray (getProperty importData "groups") = true
     ∧ isArray (getProperty importData "sites") = true
     ∧ (isMapping (getProperty importData "configs") = true
        ∨ isArray (getProperty importData "configs") = true))
  ∧ stateOf (validateImportData importData a) = a
  ∧ traceOf (validateImportData importData a) = [].
Proof.
  split; [apply validateImportData_accepts|].
  rewrite validateImportData_run. by split.
Qed.

(** X28. When the sites of a card's buffer have distinct sortable
    identifiers, dragging the site at position [i] onto the site at another
    position [j] performs exactly the move from [i] to [j] in the buffer:
    the dragged site ends at position [j] and the others keep their relative
    order. *)
Theorem drag_moves_site
    (c : GroupCard.t) (i j : nat) (dragged target : Site.t) :
  NoDup (siteItemId <$> GroupCard.sites c) →
  GroupCard.sites c !! i = Some dragged →
  GroupCard.sites c !! j = Some target →
  i ≠ j →
  let event := DragEndEvent.mk (siteItemId dragged) (Some (siteItemId target)) in
  handleSiteDragEnd event c
  = GroupCard.setSites (arrayMove (GroupCard.sites c) i j) c
  ∧ GroupCard.sites (handleSiteDragEnd event c) !! j = Some dragged
  ∧ delete j (GroupCard.sites (handleSiteDragEnd event c))
    = delete i (GroupCard.sites c).
Proof.
  intros Hnodup Hi Hj Hij event.
  assert (Hne : siteItemId dragged ≠ siteItemId target).
  { intros Heq. apply Hij.
    eapply NoDup_lookup; [exact Hnodup|..].
    - by rewrite list_lookup_fmap, Hi.
    - by rewrite list_lookup_fmap, Hj, Heq. }
  assert (Hevent : handleSiteDragEnd event c
                   = GroupCard.setSites (arrayMove (GroupCard.sites c) i j) c).
  { unfold handleSiteDragEnd, event.
    cbn [DragEndEvent.active DragEndEvent.over].
    apply String.eqb_neq in Hne. rewrite Hne. cbn [negb].
    rewrite (findIndex_unique siteItemId _ i dragged) by done.
    by rewrite (findIndex_unique siteItemId _ j target) by done. }
  destruct (arrayMove_valid (GroupCard.sites c) i j) as (_ & Hat & Hrest & _).
  { by eapply lookup_lt_Some. }
  { by eapply lookup_lt_Some. }
  rewrite Hevent. cbn. by rewrite Hat, Hrest.
Qed.

Lemma drag_moves_site_witness :
  GroupCard.sites
    (handleSiteDragEnd (DragEndEvent.mk (siteItemId siteRepo)
                          (Some (siteItemId siteWiki)))
       (GroupCard.mount groupDev false)) !! 1
  = Some siteRepo.
Proof.
  pose proof (drag_moves_site (GroupCard.mount groupDev false) 0 1
                siteRepo siteWiki) as H.
  destruct H as (_ & H & _); [|reflexivity|reflexivity|lia|exact H].
  cbn. apply NoDup_cons. split.
  - intros Hin. apply list_elem_of_singleton in Hin. discriminate.
  - apply NoDup_singleton.
Defined.

(** X29. The form for a new group opens with an empty name and an
    [order_num] equal to the number of groups in the store, which is larger
    than every [order_num] a commit of the current list submits: a new group
    sorts after the last committed order. *)
Theorem new_group_sorts_after_commit (p : Page.t) :
  let draft := Page.newGroup (handleOpenAddGroup p) in
  Page.openAddGroup (handleOpenAddGroup p) = true
  ∧ Group.name draft = ""
  ∧ Group.id draft = None
  ∧ Group.order_num draft = Z.of_nat (length (App.groups (Page.app p)))
  ∧ Forall (λ item, (OrderItem.order_num item < Group.order_num draft)%Z)
           (groupOrdersOf (App.groups (Page.app p))).
Proof.
  cbn zeta. repeat split. cbn.
  apply Forall_forall. intros item Hitem.
  apply list_elem_of_lookup in Hitem as [i Hi].
  unfold groupOrdersOf in Hi. rewrite list_lookup_imap in Hi.
  destruct (App.groups (Page.app p) !! i) as [group|] eqn:Hgroup; [|done].
  injection Hi as <-. cbn. apply lookup_lt_Some in Hgroup. lia.
Qed.
